(** * The Shadow Dungeon text adventure: a shallow embedding of
      [adventure_game.py] and the properties of its state machine.

    Python objects become records, one module per class, with the methods
    as functions that return the updated object.  [Room] objects are
    mutable and shared ([Game.current_room], [Game.rooms] and the
    [north]/[south] fields all alias them), so they live in a store and are
    named by reference.  [print] is modelled by a list of messages, and
    [random.randint] by a stream of raw draws. *)

From Stdlib Require Import ZArith List Bool String Ascii Lia.
Import ListNotations.
Local Open Scope string_scope.
Local Open Scope Z_scope.

(** ** Python [str] operations used by the program

    A character is a code point below 256; the functions below follow
    Python on ASCII text and leave the code points from 128 on alone. *)
Module Str.

Definition code (c : ascii) : N := N_of_ascii c.

(** One character of [str.lower()]. *)
Definition lower_char (c : ascii) : ascii :=
  if (65 <=? code c)%N && (code c <=? 90)%N
  then ascii_of_N (code c + 32) else c.

(** One character of [str.upper()]. *)
Definition upper_char (c : ascii) : ascii :=
  if (97 <=? code c)%N && (code c <=? 122)%N
  then ascii_of_N (code c - 32) else c.

(** The ASCII characters that [str.strip()] removes: tab, line feed,
    vertical tab, form feed, carriage return, the four separators
    0x1c..0x1f, and the space. *)
Definition is_space (c : ascii) : bool :=
  ((9 <=? code c)%N && (code c <=? 13)%N)
  || ((28 <=? code c)%N && (code c <=? 32)%N).

Fixpoint lower (s : string) : string :=
  match s with
  | EmptyString => EmptyString
  | String c s' => String (lower_char c) (lower s')
  end.

Fixpoint upper (s : string) : string :=
  match s with
  | EmptyString => EmptyString
  | String c s' => String (upper_char c) (upper s')
  end.

Fixpoint lstrip (s : string) : string :=
  match s with
  | EmptyString => EmptyString
  | String c s' => if is_space c then lstrip s' else s
  end.

Fixpoint rstrip (s : string) : string :=
  match s with
  | EmptyString => EmptyString
  | String c s' =>
      match rstrip s' with
      | EmptyString => if is_space c then EmptyString
                       else String c EmptyString
      | t => String c t
      end
  end.

(** [s.strip()] *)
Definition strip (s : string) : string := lstrip (rstrip s).

(** [s.startswith(p)] *)
Definition startswith (p s : string) : bool := String.prefix p s.

(** The slice [s[n:]]. *)
Fixpoint slice_from (n : nat) (s : string) : string :=
  match n, s with
  | O, _ => s
  | S _, EmptyString => EmptyString
  | S n', String _ s' => slice_from n' s'
  end.

(** [s in [a, b, ...]] *)
Definition mem (s : string) (l : list string) : bool :=
  existsb (String.eqb s) l.


Definition nl : string := String (ascii_of_nat 10) EmptyString.

End Str.

(** ** class Item *)
Module Item.

Record t := mk {
  name : string;
  description : string;
  takeable : bool
}.

(** [Item(name, description, takeable=True)] *)
Definition init (n d : string) (tk : bool) : t := mk n d tk.

(** [item.name.lower() == item_name.lower()], the test of every lookup
    by name. *)
Definition named (item_name : string) (it : t) : bool :=
  String.eqb (Str.lower (name it)) (Str.lower item_name).

Definition eqb (a b : t) : bool :=
  String.eqb (name a) (name b)
  && String.eqb (description a) (description b)
  && Bool.eqb (takeable a) (takeable b).

End Item.

(** References to the [Room] objects.  [setup_game] creates three rooms and
    stores them under the keys ["room1"], ["room2"], ["room3"] of
    [self.rooms]; nothing creates a room or changes that dictionary later,
    so a reference is one of these three keys. *)
Inductive RoomRef := room1 | room2 | room3.

(** ** class Room *)
Module Room.

Record t := mk {
  name : string;
  description : string;
  items : list Item.t;
  north : option RoomRef;
  south : option RoomRef;
  north_door_locked : bool;
  visited : bool
}.

(** [Room(name, description)] *)
Definition init (n d : string) : t := mk n d [] None None false false.

Definition set_items (r : t) (l : list Item.t) : t :=
  mk (name r) (description r) l (north r) (south r)
     (north_door_locked r) (visited r).

Definition set_north (r : t) (x : option RoomRef) : t :=
  mk (name r) (description r) (items r) x (south r)
     (north_door_locked r) (visited r).

Definition set_south (r : t) (x : option RoomRef) : t :=
  mk (name r) (description r) (items r) (north r) x
     (north_door_locked r) (visited r).

Definition set_north_door_locked (r : t) (b : bool) : t :=
  mk (name r) (description r) (items r) (north r) (south r) b (visited r).

(** The loop [for item in self.items: desc += f"  - A {item.name}\n"]. *)
Fixpoint item_lines (l : list Item.t) : string :=
  match l with
  | [] => ""
  | it :: l' => "  - A " ++ Item.name it ++ Str.nl ++ item_lines l'
  end.

(** [', '.join(exits)] *)
Fixpoint join (sep : string) (l : list string) : string :=
  match l with
  | [] => ""
  | [x] => x
  | x :: l' => x ++ sep ++ join sep l'
  end.

Definition get_full_description (r : t) : string :=
  let desc := Str.nl ++ "=== " ++ name r ++ " ===" ++ Str.nl
              ++ description r ++ Str.nl in
  let desc := match items r with
              | [] => desc
              | _ => desc ++ Str.nl ++ "You can see:" ++ Str.nl
                     ++ item_lines (items r)
              end in
  let exits := List.app
                 (match north r with Some _ => ["north"] | None => [] end)
                 (match south r with Some _ => ["south"] | None => [] end) in
  match exits with
  | [] => desc
  | _ => desc ++ Str.nl ++ "Exits: " ++ join ", " exits
  end.

Definition add_item (r : t) (it : Item.t) : t :=
  set_items r (List.app (items r) [it]).

(** [list.remove(x)]: drops the first element equal to [x].  An [Item]
    defines no [__eq__], so Python compares by identity; [remove_item]
    only passes the element its search by name has just found, and that
    element is the first one equal to itself under either comparison. *)
Fixpoint list_remove (x : Item.t) (l : list Item.t) : list Item.t :=
  match l with
  | [] => []
  | y :: l' => if Item.eqb y x then l' else y :: list_remove x l'
  end.

(** [get_item]: the first item of that name, [None] when there is none. *)
Definition get_item (r : t) (item_name : string) : option Item.t :=
  find (Item.named item_name) (items r).

(** [remove_item]: finds the first item of that name, removes it from the
    list with [list.remove] and returns it. *)
Definition remove_item (r : t) (item_name : string) : t * option Item.t :=
  match find (Item.named item_name) (items r) with
  | Some it => (set_items r (list_remove it (items r)), Some it)
  | None => (r, None)
  end.

End Room.

(** ** [random.randint]

    The generator is a stream of raw draws.  [randint a b] raises
    [ValueError] on an empty range and otherwise maps the next draw into
    [a..b]; every value of the range is the image of some draw. *)
Inductive Exn := ValueError.

Inductive Result (A : Type) :=
| Ok (a : A)
| Raise (e : Exn).
Arguments Ok {A} a.
Arguments Raise {A} e.

Definition bind {A B : Type} (m : Result A) (k : A -> Result B) : Result B :=
  match m with
  | Ok a => k a
  | Raise e => Raise e
  end.

Notation "'let*' x ':=' m 'in' k" := (bind m (fun x => k))
  (at level 10, x pattern, m at level 100, k at level 200).

Definition Rng := nat -> Z.

Definition draw (r : Rng) : Z * Rng := (r O, fun n => r (S n)).

Definition randint (a b : Z) (r : Rng) : Result (Z * Rng) :=
  if b <? a then Raise ValueError
  else let (raw, r') := draw r in Ok (a + raw mod (b - a + 1), r').

(** ** class Player *)
Module Player.

Record t := mk {
  inventory : list Item.t;
  health : Z;
  max_health : Z;
  min_damage : Z;
  max_damage : Z
}.

(** [Player()] *)
Definition init : t := mk [] 20 20 1 6.

Definition set_inventory (p : t) (l : list Item.t) : t :=
  mk l (health p) (max_health p) (min_damage p) (max_damage p).

Definition set_health (p : t) (h : Z) : t :=
  mk (inventory p) h (max_health p) (min_damage p) (max_damage p).

Definition add_item (p : t) (it : Item.t) : t :=
  set_inventory p (List.app (inventory p) [it]).

Definition has_item (p : t) (item_name : string) : bool :=
  existsb (Item.named item_name) (inventory p).

Definition get_item (p : t) (item_name : string) : option Item.t :=
  find (Item.named item_name) (inventory p).

Fixpoint item_lines (l : list Item.t) : string :=
  match l with
  | [] => ""
  | it :: l' => "  - " ++ Item.name it ++ Str.nl ++ item_lines l'
  end.

Definition show_inventory (p : t) : string :=
  match inventory p with
  | [] => Str.nl ++ "Your inventory is empty."
  | _ => Str.nl ++ "=== Inventory ===" ++ Str.nl
         ++ item_lines (inventory p)
  end.

Definition attack (p : t) (r : Rng) : Result (Z * Rng) :=
  randint (min_damage p) (max_damage p) r.

Definition take_damage (p : t) (damage : Z) : t :=
  let p := set_health p (health p - damage) in
  if health p <? 0 then set_health p 0 else p.

End Player.

(** ** class Enemy *)
Module Enemy.

Record t := mk {
  name : string;
  health : Z;
  max_health : Z;
  min_damage : Z;
  max_damage : Z
}.

(** [Enemy(name, health, min_damage, max_damage)] *)
Definition init (n : string) (h lo hi : Z) : t := mk n h h lo hi.

Definition set_health (e : t) (h : Z) : t :=
  mk (name e) h (max_health e) (min_damage e) (max_damage e).

Definition attack (e : t) (r : Rng) : Result (Z * Rng) :=
  randint (min_damage e) (max_damage e) r.

Definition take_damage (e : t) (damage : Z) : t :=
  let e := set_health e (health e - damage) in
  if health e <? 0 then set_health e 0 else e.

Definition is_alive (e : t) : bool := 0 <? health e.

End Enemy.

(** ** What the program prints

    One constructor for each [print] call, or run of adjacent [print]
    calls, with the values its text interpolates. *)
Inductive Msg :=
| MsgIntro             (* the banner of [show_intro] *)
| MsgRoom (desc : string)   (* [print(room.get_full_description())] *)
| MsgHelp              (* [print(help_text)] *)
| MsgCombatOnly        (* "You're in combat! You can only 'attack' or 'quit'." *)
| MsgGoodbye           (* "Thanks for playing! Goodbye." *)
| MsgInventory (inv : string)  (* [print(self.player.show_inventory())] *)
| MsgUnknown           (* "I don't understand that command. ..." *)
| MsgDoorLocked        (* "The door is locked. You need to unlock it first." *)
| MsgCantGo            (* "You can't go that way." *)
| MsgBadDirection      (* "You can only go 'north' or 'south'." *)
| MsgTookKey           (* "You pick up the rusty iron key ..." *)
| MsgNoKeyHere         (* "There's no key here." *)
| MsgNote (password : string)  (* "You read the note:" ... "The password is: ..." *)
| MsgNoNote            (* "There's no note here to read." *)
| MsgAlreadyUnlocked   (* "The door is already unlocked." *)
| MsgNoKey             (* "You don't have a key." *)
| MsgUnlocked          (* "The door unlocks with a click! You can now go north." *)
| MsgWrongPassword     (* "The password is incorrect." *)
| MsgDoorOpen          (* "The door is already open. You can go north." *)
| MsgNoDoor            (* "There's no door to open here." *)
| MsgCombatStart (enemy_health enemy_max player_health player_max : Z)
                       (* the banner and the two health lines of [start_combat] *)
| MsgPlayerHit (enemy_name : string) (damage enemy_health enemy_max : Z)
                       (* "You attack the ... for ... damage!", "Enemy Health: .../..." *)
| MsgVictory (enemy_name : string)   (* the VICTORY banner *)
| MsgEnemyHit (enemy_name : string) (damage player_health player_max : Z)
                       (* "The ... strikes back for ... damage!", "Your Health: .../..." *)
| MsgDefeat            (* the DEFEAT banner *)
| MsgPrompt            (* "What will you do?" *)
| MsgInterrupted       (* "Game interrupted. Thanks for playing!" *)
| MsgEnded.            (* "Game ended. Thanks for playing!" *)

(** The store of the three [Room] objects. *)
Module Rooms.

Record t := mk { r1 : Room.t; r2 : Room.t; r3 : Room.t }.

Definition get (s : t) (k : RoomRef) : Room.t :=
  match k with room1 => r1 s | room2 => r2 s | room3 => r3 s end.

Definition set (s : t) (k : RoomRef) (v : Room.t) : t :=
  match k with
  | room1 => mk v (r2 s) (r3 s)
  | room2 => mk (r1 s) v (r3 s)
  | room3 => mk (r1 s) (r2 s) v
  end.

End Rooms.

(** ** class Game *)
Module Game.

Record t := mk {
  player : Player.t;
  current_room : RoomRef;
  rooms : Rooms.t;
  door_unlocked : bool;
  password : string;
  game_over : bool;
  game_won : bool;
  in_combat : bool;
  enemy : option Enemy.t;
  enemy_defeated : bool
}.

Definition set_player (g : t) (p : Player.t) : t :=
  mk p (current_room g) (rooms g) (door_unlocked g) (password g)
     (game_over g) (game_won g) (in_combat g) (enemy g) (enemy_defeated g).

Definition set_current_room (g : t) (k : RoomRef) : t :=
  mk (player g) k (rooms g) (door_unlocked g) (password g)
     (game_over g) (game_won g) (in_combat g) (enemy g) (enemy_defeated g).

Definition set_rooms (g : t) (s : Rooms.t) : t :=
  mk (player g) (current_room g) s (door_unlocked g) (password g)
     (game_over g) (game_won g) (in_combat g) (enemy g) (enemy_defeated g).

Definition set_door_unlocked (g : t) (b : bool) : t :=
  mk (player g) (current_room g) (rooms g) b (password g)
     (game_over g) (game_won g) (in_combat g) (enemy g) (enemy_defeated g).

Definition set_game_over (g : t) (b : bool) : t :=
  mk (player g) (current_room g) (rooms g) (door_unlocked g) (password g)
     b (game_won g) (in_combat g) (enemy g) (enemy_defeated g).

Definition set_game_won (g : t) (b : bool) : t :=
  mk (player g) (current_room g) (rooms g) (door_unlocked g) (password g)
     (game_over g) b (in_combat g) (enemy g) (enemy_defeated g).

Definition set_in_combat (g : t) (b : bool) : t :=
  mk (player g) (current_room g) (rooms g) (door_unlocked g) (password g)
     (game_over g) (game_won g) b (enemy g) (enemy_defeated g).

Definition set_enemy (g : t) (e : option Enemy.t) : t :=
  mk (player g) (current_room g) (rooms g) (door_unlocked g) (password g)
     (game_over g) (game_won g) (in_combat g) e (enemy_defeated g).

Definition set_enemy_defeated (g : t) (b : bool) : t :=
  mk (player g) (current_room g) (rooms g) (door_unlocked g) (password g)
     (game_over g) (game_won g) (in_combat g) (enemy g) b.

(** The object [self.current_room] refers to. *)
Definition here (g : t) : Room.t := Rooms.get (rooms g) (current_room g).

(** A write through the reference [self.current_room]. *)
Definition set_here (g : t) (v : Room.t) : t :=
  set_rooms g (Rooms.set (rooms g) (current_room g) v).

Definition key : Item.t := Item.init "key" "A rusty iron key" true.

Definition note : Item.t :=
  Item.init "note" "A weathered piece of parchment with writing on it" false.

(** The world built by [setup_game]. *)
Definition setup_rooms : Rooms.t :=
  let room1_ := Room.init "Starting Chamber"
    ("You find yourself in a dimly lit stone chamber. The walls are cold and damp."
     ++ Str.nl ++ "A heavy wooden door stands to the north.") in
  let room2_ := Room.init "Treasury Room"
    ("You enter a magnificent treasury filled with ancient artifacts and golden treasures."
     ++ Str.nl ++ "The room sparkles with an otherworldly glow.") in
  let room3_ := Room.init "Enemy Arena"
    ("You step into a vast arena. The air is thick with tension."
     ++ Str.nl ++ "A menacing shadow moves in the darkness ahead!") in
  let room1_ := Room.add_item room1_ key in
  let room2_ := Room.add_item room2_ note in
  let room1_ := Room.set_north room1_ (Some room2) in
  let room1_ := Room.set_north_door_locked room1_ true in
  let room2_ := Room.set_south room2_ (Some room1) in
  let room2_ := Room.set_north room2_ (Some room3) in
  let room3_ := Room.set_south room3_ (Some room2) in
  Rooms.mk room1_ room2_ room3_.

(** [Game()]: the fields of [__init__] after [setup_game] has run. *)
Definition init : t :=
  mk Player.init room1 setup_rooms false "SHADOW" false false false None
     false.

Definition show_intro (g : t) : list Msg :=
  [MsgIntro; MsgRoom (Room.get_full_description (here g))].

Definition start_combat (g : t) : t * list Msg :=
  let e := Enemy.init "Dark Warrior" 10 1 4 in
  let g := set_enemy g (Some e) in
  let g := set_in_combat g true in
  (g, [MsgCombatStart (Enemy.health e) (Enemy.max_health e)
         (Player.health (player g)) (Player.max_health (player g))]).

Definition move (g : t) (direction : string) : t * list Msg :=
  let direction := Str.lower direction in
  if String.eqb direction "north" then
    match Room.north (here g) with
    | Some dest =>
        if Room.north_door_locked (here g) then (g, [MsgDoorLocked])
        else
          let g := set_current_room g dest in
          let out := [MsgRoom (Room.get_full_description (here g))] in
          if String.eqb (Room.name (here g)) "Enemy Arena"
             && negb (enemy_defeated g)
          then let (g, out') := start_combat g in (g, (out ++ out')%list)
          else (g, out)
    | None => (g, [MsgCantGo])
    end
  else if String.eqb direction "south" then
    match Room.south (here g) with
    | Some dest =>
        let g := set_current_room g dest in
        (g, [MsgRoom (Room.get_full_description (here g))])
    | None => (g, [MsgCantGo])
    end
  else (g, [MsgBadDirection]).

Definition take_key (g : t) : t * list Msg :=
  match Room.get_item (here g) "key" with
  | Some k =>
      let g := set_here g (fst (Room.remove_item (here g) "key")) in
      let g := set_player g (Player.add_item (player g) k) in
      (g, [MsgTookKey])
  | None => (g, [MsgNoKeyHere])
  end.

Definition read_note (g : t) : t * list Msg :=
  match Room.get_item (here g) "note" with
  | Some _ => (g, [MsgNote (password g)])
  | None => (g, [MsgNoNote])
  end.

Definition unlock_door (g : t) (pw : string) : t * list Msg :=
  if door_unlocked g then (g, [MsgAlreadyUnlocked])
  else if negb (Player.has_item (player g) "key") then (g, [MsgNoKey])
  else if String.eqb pw (password g) then
    let g := set_door_unlocked g true in
    let g := set_rooms g
               (Rooms.set (rooms g) room1
                  (Room.set_north_door_locked (Rooms.get (rooms g) room1)
                     false)) in
    (g, [MsgUnlocked])
  else (g, [MsgWrongPassword]).

Definition open_door (g : t) : t * list Msg :=
  if String.eqb (Room.name (here g)) "Starting Chamber" then
    if door_unlocked g || negb (Room.north_door_locked (here g))
    then (g, [MsgDoorOpen])
    else (g, [MsgDoorLocked])
  else (g, [MsgNoDoor]).

Definition combat_turn (g : t) (r : Rng) : Result (t * Rng * list Msg) :=
  match enemy g with
  | None => Ok (g, r, [])
  | Some e =>
      if negb (in_combat g) then Ok (g, r, [])
      else
        (* Player attacks first *)
        let* (player_damage, r) := Player.attack (player g) r in
        let e := Enemy.take_damage e player_damage in
        let g := set_enemy g (Some e) in
        let out := [MsgPlayerHit (Enemy.name e) player_damage
                      (Enemy.health e) (Enemy.max_health e)] in
        (* Check if enemy is defeated *)
        if negb (Enemy.is_alive e) then
          let g := set_in_combat g false in
          let g := set_enemy_defeated g true in
          let g := set_game_won g true in
          let g := set_game_over g true in
          Ok (g, r, (out ++ [MsgVictory (Enemy.name e)])%list)
        else
          (* Enemy attacks *)
          let* (enemy_damage, r) := Enemy.attack e r in
          let g := set_player g (Player.take_damage (player g) enemy_damage) in
          let out := (out ++ [MsgEnemyHit (Enemy.name e) enemy_damage
                                (Player.health (player g))
                                (Player.max_health (player g))])%list in
          (* Check if player is defeated *)
          if Player.health (player g) <=? 0 then
            let g := set_in_combat g false in
            let g := set_game_over g true in
            Ok (g, r, (out ++ [MsgDefeat])%list)
          else Ok (g, r, (out ++ [MsgPrompt])%list)
  end.

(** A command that needs no random draw. *)
Definition pure (r : Rng) (x : t * list Msg) : Result (t * Rng * list Msg) :=
  Ok (fst x, r, snd x).

(** [parts = command.split()] and [action] are computed by the source
    and never read; they are left out. *)
Definition process_command (g : t) (command : string) (r : Rng)
  : Result (t * Rng * list Msg) :=
  let command := Str.strip (Str.lower command) in
  if String.eqb command "" then Ok (g, r, [])
  else if in_combat g then
    if String.eqb command "attack" then combat_turn g r
    else Ok (g, r, [MsgCombatOnly])
  else if String.eqb command "help" then Ok (g, r, [MsgHelp])
  else if Str.mem command ["quit"; "exit"; "q"] then
    Ok (set_game_over g true, r, [MsgGoodbye])
  else if Str.startswith "go " command then
    let direction := Str.strip (Str.slice_from 3 command) in
    pure r (move g direction)
  else if String.eqb command "look" then
    Ok (g, r, [MsgRoom (Room.get_full_description (here g))])
  else if Str.mem command ["inventory"; "i"] then
    Ok (g, r, [MsgInventory (Player.show_inventory (player g))])
  else if Str.mem command ["take key"; "pick up key"; "get key"] then
    pure r (take_key g)
  else if Str.mem command ["read note"; "examine note"; "look at note"] then
    pure r (read_note g)
  else if Str.startswith "unlock door with " command then
    let pw := Str.upper (Str.strip (Str.slice_from 17 command)) in
    pure r (unlock_door g pw)
  else if Str.mem command ["open door"; "open north door"] then
    pure r (open_door g)
  else Ok (g, r, [MsgUnknown]).

(** What [input()] delivers: a line, or [KeyboardInterrupt]; the end of
    the list is the end of the input, [EOFError]. *)
Inductive Input := Line (s : string) | Interrupt.

(** The [while not self.game_over] loop of [run]. *)
Fixpoint loop (g : t) (inputs : list Input) (r : Rng)
  : Result (t * list Msg) :=
  if game_over g then Ok (g, [])
  else
    match inputs with
    | [] => Ok (g, [MsgEnded])
    | Interrupt :: _ => Ok (g, [MsgInterrupted])
    | Line s :: rest =>
        let* (g', r', out) := process_command g (Str.strip s) r in
        let* (g'', out') := loop g' rest r' in
        Ok (g'', (out ++ out')%list)
    end.

Definition run (g : t) (inputs : list Input) (r : Rng)
  : Result (t * list Msg) :=
  let* (g', out) := loop g inputs r in
  Ok (g', (show_intro g ++ out)%list).

(** [main()] *)
Definition main (inputs : list Input) (r : Rng) : Result (t * list Msg) :=
  run init inputs r.

End Game.

(** ** Executions *)

(** One call of [process_command] that returns. *)
Inductive step : Game.t -> Game.t -> Prop :=
| step_intro g command r g' r' out :
    Game.process_command g command r = Ok (g', r', out) -> step g g'.

(** Any number of calls of [process_command], one after another. *)
Inductive steps : Game.t -> Game.t -> Prop :=
| steps_refl g : steps g g
| steps_cons g g' g'' : step g g' -> steps g' g'' -> steps g g''.

(** The states of the main loop: [run] starts from [Game()] and hands a
    line to [process_command] only while [game_over] is false. *)
Inductive reachable : Game.t -> Prop :=
| reach_init : reachable Game.init
| reach_step g line r g' r' out :
    reachable g ->
    Game.game_over g = false ->
    Game.process_command g (Str.strip line) r = Ok (g', r', out) ->
    reachable g'.

(** The state in which the main loop stops on the given input lines. *)
Definition after (commands : list string) (r : Rng) : Game.t :=
  match Game.loop Game.init (map Game.Line commands) r with
  | Ok (g, _) => g
  | Raise _ => Game.init
  end.

(** A generator that always draws 5: the player rolls 6, the enemy 2. *)
Definition fives : Rng := fun _ => 5.

(** A generator that always draws 0: both sides roll 1. *)
Definition zeros : Rng := fun _ => 0.

(** The way to the arena. *)
Definition to_arena : list string :=
  ["take key"; "unlock door with shadow"; "go north"; "go north"].

(** ** The shape of the reachable states *)

(** The start room with the given items and lock flag. *)
Definition start_room (l : list Item.t) (locked : bool) : Room.t :=
  Room.mk "Starting Chamber"
    (Room.description (Rooms.r1 Game.setup_rooms)) l (Some room2) None
    locked false.

(** The rooms are those of [setup_game], but for the key and the lock of
    the start room; the key is in the start room or in the inventory, and
    the lock is set until the door is unlocked. *)
Definition world_ok (g : Game.t) : Prop :=
  exists l,
    Game.rooms g =
      Rooms.mk (start_room l (negb (Game.door_unlocked g)))
        (Rooms.r2 Game.setup_rooms) (Rooms.r3 Game.setup_rooms)
    /\ ((l = [Game.key] /\ Player.inventory (Game.player g) = [])
        \/ (l = [] /\ Player.inventory (Game.player g) = [Game.key]))
    /\ (Game.door_unlocked g = false -> Game.current_room g = room1).

Definition player_ok (p : Player.t) : Prop :=
  Player.max_health p = 20 /\ Player.min_damage p = 1
  /\ Player.max_damage p = 6 /\ 0 <= Player.health p <= 20.

Definition enemy_ok (e : Enemy.t) : Prop :=
  Enemy.name e = "Dark Warrior" /\ Enemy.max_health e = 10
  /\ Enemy.min_damage e = 1 /\ Enemy.max_damage e = 4
  /\ 0 <= Enemy.health e <= 10.

(** Exploring, fighting, or over: how the flags go together. *)
Definition phase_ok (g : Game.t) : Prop :=
  match Game.in_combat g, Game.enemy g with
  | true, Some e =>
      Game.current_room g = room3 /\ Game.game_over g = false
      /\ Game.game_won g = false /\ Game.enemy_defeated g = false
      /\ 0 < Player.health (Game.player g)
      /\ enemy_ok e /\ 0 < Enemy.health e
  | true, None => False
  | false, None =>
      Game.game_won g = false /\ Game.enemy_defeated g = false
      /\ Game.current_room g <> room3
      /\ Player.health (Game.player g) = 20
  | false, Some e =>
      Game.current_room g = room3 /\ Game.game_over g = true
      /\ enemy_ok e
      /\ ((Enemy.health e = 0 /\ Game.game_won g = true
           /\ Game.enemy_defeated g = true)
          \/ (0 < Enemy.health e /\ Player.health (Game.player g) = 0
              /\ Game.game_won g = false /\ Game.enemy_defeated g = false))
  end.

Definition Inv (g : Game.t) : Prop :=
  world_ok g /\ player_ok (Game.player g)
  /\ Game.password g = "SHADOW" /\ phase_ok g.

(** Winning comes with the end of the game and the enemy's defeat. *)
Definition won_ok (g : Game.t) : Prop :=
  Game.game_won g = true ->
  Game.game_over g = true /\ Game.enemy_defeated g = true.

(** The door is unlocked and the start room's north exit is open. *)
Definition door_open (g : Game.t) : Prop :=
  Game.door_unlocked g = true
  /\ Room.north_door_locked (Rooms.get (Game.rooms g) room1) = false.

(** The normal form [command.lower().strip()] that [process_command]
    works on. *)
Definition normal (command : string) : string :=
  Str.strip (Str.lower command).

(** How often an item occurs in a list. *)
Fixpoint occurrences (x : Item.t) (l : list Item.t) : nat :=
  match l with
  | [] => O
  | y :: l' => ((if Item.eqb y x then 1 else 0) + occurrences x l')%nat
  end.

(** In how many places an item is held: the sum of its occurrences in the
    three rooms and in the inventory. *)
Definition holders (x : Item.t) (g : Game.t) : nat :=
  (occurrences x (Room.items (Rooms.r1 (Game.rooms g)))
   + occurrences x (Room.items (Rooms.r2 (Game.rooms g)))
   + occurrences x (Room.items (Rooms.r3 (Game.rooms g)))
   + occurrences x (Player.inventory (Game.player g)))%nat.

(** The argument that [process_command] hands to [move]: for a line of
    the form "go <direction>", the direction as [move] reads it. *)
Definition go_direction (command : string) : option string :=
  if Str.startswith "go " (normal command)
  then Some (Str.lower (Str.strip (Str.slice_from 3 (normal command))))
  else None.

(** The argument that [process_command] hands to [unlock_door]: for a
    line of the form "unlock door with <password>", the attempt in upper
    case. *)
Definition unlock_attempt (command : string) : option string :=
  if Str.startswith "unlock door with " (normal command)
  then Some (Str.upper (Str.strip (Str.slice_from 17 (normal command))))
  else None.

(** The spellings of the command that takes the key. *)
Definition take_forms : list string := ["take key"; "pick up key"; "get key"].

(** The state after a won fight: rolls of 6 beat the enemy in two rounds. *)
Definition won_game : Game.t :=
  after ["take key"; "unlock door with shadow"; "go north"; "go north";
         "attack"; "attack"] fives.

(** The spellings of the command that ends the game. *)
Definition quit_forms : list string := ["quit"; "exit"; "q"].


(** What no command touches in a room: its name, description, exits and
    [visited] flag; and a lock is at most cleared. *)
Definition same_room (a b : Room.t) : Prop :=
  Room.name b = Room.name a
  /\ Room.description b = Room.description a
  /\ Room.north b = Room.north a
  /\ Room.south b = Room.south a
  /\ Room.visited b = Room.visited a
  /\ (Room.north_door_locked b = true -> Room.north_door_locked a = true).

(** The player has the key once the door is unlocked, and is alive when
    the game is won. *)
Definition story_ok (g : Game.t) : Prop :=
  (Game.door_unlocked g = true ->
   Player.inventory (Game.player g) = [Game.key])
  /\ (Game.game_won g = true -> 0 < Player.health (Game.player g)).

(** The line "attack". *)
Definition attack_line : Game.Input := Game.Line "attack".

(** ** Tactics for the invariant *)

(** Takes a state that satisfies [Inv] apart: the fields fixed by the
    invariant are replaced by their values. *)
Ltac open_inv H :=
  match type of H with
  | Inv ?g =>
      let p := fresh "p" in let cur := fresh "cur" in
      let rs := fresh "rs" in let du := fresh "du" in
      let pw := fresh "pw" in let go := fresh "go" in
      let gw := fresh "gw" in let ic := fresh "ic" in
      let en := fresh "en" in let ed := fresh "ed" in
      let Hw := fresh "Hw" in let Hp := fresh "Hp" in
      let Hpw := fresh "Hpw" in let Hph := fresh "Hph" in
      let l := fresh "l" in let Hrs := fresh "Hrs" in
      let Hown := fresh "Hown" in let Hcur := fresh "Hcur" in
      destruct g as [p cur rs du pw go gw ic en ed];
      destruct H as (Hw & Hp & Hpw & Hph);
      destruct Hw as (l & Hrs & Hown & Hcur);
      destruct p as [inv h mh mn mx];
      unfold player_ok in Hp; cbn in Hrs, Hown, Hcur, Hp, Hpw;
      destruct Hp as (? & ? & ? & ?); subst rs pw mh mn mx
  end.

Ltac solve_inv l :=
  unfold Inv, world_ok, player_ok, phase_ok, enemy_ok; cbn;
  split; [exists l; repeat split; auto; try discriminate; try congruence|];
  repeat split; auto; try lia; try discriminate; try congruence.

(** Exploring with the game not over: no enemy yet, full health. *)
Ltac exploring Hph :=
  unfold phase_ok in Hph; cbn in Hph;
  match type of Hph with
  | match ?en with _ => _ end =>
      destruct en; [destruct Hph as (_ & ? & _); discriminate|];
      destruct Hph as (? & ? & ? & ?); subst
  end.

(** Splits a statement about [process_command] into the paths of the
    source, one goal for each [return] or end of a branch. *)
Ltac by_paths :=
  unfold Game.process_command, Game.pure, Game.combat_turn, Game.move,
    Game.take_key, Game.read_note, Game.unlock_door, Game.open_door,
    Game.start_combat;
  repeat match goal with
    | |- context [if ?b then _ else _] => destruct b eqn:?
    | |- context [match ?o with Some _ => _ | None => _ end] =>
        destruct o eqn:?
    | |- context [bind ?m _] =>
        destruct m as [[? ?]|] eqn:?; cbn [bind]
    end;
  let E := fresh "E" in
  intros E; inversion E; subst; clear E; cbn.

(** Runs a command on a given state, for an example. *)
Ltac run_command Hs :=
  match goal with
  | |- exists g' r' out, ?p = Ok (g', r', out) /\ _ =>
      destruct p as [[[? ?] ?]|] eqn:Hs;
      [do 3 eexists; split; [reflexivity|]
      |exfalso; vm_compute in Hs; discriminate]
  end.

(** ** Strings *)

Lemma is_space_lower_char (c : ascii) :
  Str.is_space (Str.lower_char c) = Str.is_space c.
Proof.
  destruct c as [[] [] [] [] [] [] [] []]; reflexivity.
Qed.




(** ** The invariant of the main loop *)

Lemma Inv_init : Inv Game.init.
Proof.
  unfold Inv, world_ok, player_ok, phase_ok; simpl.
  repeat split; try lia; try discriminate.
  exists [Game.key]. repeat split. left; split; reflexivity.
Qed.

Lemma Inv_quit g : Inv g -> Game.in_combat g = false ->
  Game.game_over g = false -> Inv (Game.set_game_over g true).
Proof.
  intros H Hc Hg. open_inv H. cbn in Hc, Hg; subst. exploring Hph.
  solve_inv l.
Qed.

Lemma Inv_move g d : Inv g -> Game.in_combat g = false ->
  Game.game_over g = false -> Inv (fst (Game.move g d)).
Proof.
  intros H Hc Hg. open_inv H. cbn in Hc, Hg; subst. exploring Hph.
  unfold Game.move.
  destruct (String.eqb (Str.lower d) "north");
    [|destruct (String.eqb (Str.lower d) "south")];
    destruct cur; try congruence; destruct du; cbn;
    try (specialize (Hcur eq_refl); discriminate);
    solve_inv l.
Qed.

Lemma Inv_take_key g : Inv g -> Game.in_combat g = false ->
  Game.game_over g = false -> Inv (fst (Game.take_key g)).
Proof.
  intros H Hc Hg. open_inv H. cbn in Hc, Hg; subst. exploring Hph.
  unfold Game.take_key.
  destruct cur; try congruence;
    destruct Hown as [[-> ->]|[-> ->]]; cbn.
  - solve_inv (@nil Item.t).
  - solve_inv (@nil Item.t).
  - solve_inv [Game.key].
  - solve_inv (@nil Item.t).
Qed.

Lemma Inv_unlock_door g pw : Inv g -> Game.in_combat g = false ->
  Game.game_over g = false -> Inv (fst (Game.unlock_door g pw)).
Proof.
  intros H Hc Hg. open_inv H. cbn in Hc, Hg; subst. exploring Hph.
  unfold Game.unlock_door. cbn.
  destruct du; cbn; [solve_inv l|].
  destruct Hown as [[-> ->]|[-> ->]]; cbn.
  - solve_inv [Game.key].
  - destruct (String.eqb pw "SHADOW"); cbn; solve_inv (@nil Item.t).
Qed.

(** ** Attack rolls *)

Lemma randint_range a b r :
  a <= b ->
  exists v, randint a b r = Ok (v, snd (draw r)) /\ a <= v <= b.
Proof.
  intros Hab. unfold randint.
  destruct (Z.ltb_spec b a) as [Hlt|_]; [lia|].
  cbn. exists (a + r O mod (b - a + 1)). split; [reflexivity|].
  pose proof (Z.mod_pos_bound (r O) (b - a + 1)). lia.
Qed.

Lemma randint_onto a b v r :
  a <= v <= b -> r O = v - a -> randint a b r = Ok (v, snd (draw r)).
Proof.
  intros Hv Hr. unfold randint.
  destruct (Z.ltb_spec b a) as [Hlt|_]; [lia|].
  cbn. rewrite Hr, Z.mod_small by lia. f_equal. f_equal. lia.
Qed.

Lemma randint_empty a b r : b < a -> randint a b r = Raise ValueError.
Proof.
  intros H. unfold randint. destruct (Z.ltb_spec b a); [reflexivity|lia].
Qed.

(** ** Damage *)

Lemma player_take_damage_health p d :
  Player.health (Player.take_damage p d) = Z.max 0 (Player.health p - d).
Proof.
  unfold Player.take_damage; cbn.
  destruct (Z.ltb_spec (Player.health p - d) 0); cbn; lia.
Qed.

Lemma enemy_take_damage_health e d :
  Enemy.health (Enemy.take_damage e d) = Z.max 0 (Enemy.health e - d).
Proof.
  unfold Enemy.take_damage; cbn.
  destruct (Z.ltb_spec (Enemy.health e - d) 0); cbn; lia.
Qed.

Lemma player_take_damage_frame p d :
  Player.take_damage p d
  = Player.set_health p (Z.max 0 (Player.health p - d)).
Proof.
  unfold Player.take_damage; cbn.
  destruct (Z.ltb_spec (Player.health p - d) 0); unfold Player.set_health;
    cbn; f_equal; lia.
Qed.

Lemma enemy_take_damage_frame e d :
  Enemy.take_damage e d = Enemy.set_health e (Z.max 0 (Enemy.health e - d)).
Proof.
  unfold Enemy.take_damage; cbn.
  destruct (Z.ltb_spec (Enemy.health e - d) 0); unfold Enemy.set_health;
    cbn; f_equal; lia.
Qed.

(** ** One round of combat, in any state with an enemy to fight *)

Lemma combat_turn_round g e r :
  Game.enemy g = Some e ->
  Game.in_combat g = true ->
  Player.min_damage (Game.player g) <= Player.max_damage (Game.player g) ->
  Enemy.min_damage e <= Enemy.max_damage e ->
  exists pd r1,
    Player.attack (Game.player g) r = Ok (pd, r1)
    /\ Player.min_damage (Game.player g) <= pd
       <= Player.max_damage (Game.player g)
    /\ let e' := Enemy.take_damage e pd in
       (Enemy.health e' <= 0 ->
        exists out,
          Game.combat_turn g r
          = Ok (Game.mk (Game.player g) (Game.current_room g) (Game.rooms g)
                  (Game.door_unlocked g) (Game.password g)
                  true true false (Some e') true, r1, out))
       /\ (0 < Enemy.health e' ->
           exists ed r2,
             Enemy.attack e' r1 = Ok (ed, r2)
             /\ Enemy.min_damage e <= ed <= Enemy.max_damage e
             /\ let p' := Player.take_damage (Game.player g) ed in
                (Player.health p' <= 0 ->
                 exists out,
                   Game.combat_turn g r
                   = Ok (Game.mk p' (Game.current_room g) (Game.rooms g)
                           (Game.door_unlocked g) (Game.password g)
                           true (Game.game_won g) false (Some e')
                           (Game.enemy_defeated g), r2, out))
                /\ (0 < Player.health p' ->
                    exists out,
                      Game.combat_turn g r
                      = Ok (Game.mk p' (Game.current_room g) (Game.rooms g)
                              (Game.door_unlocked g) (Game.password g)
                              (Game.game_over g) (Game.game_won g) true
                              (Some e') (Game.enemy_defeated g), r2, out))).
Proof.
  intros He Hc Hp Hen.
  destruct (randint_range _ _ r Hp) as (pd & Hpd & Hpdr).
  exists pd, (snd (draw r)). split; [exact Hpd|]. split; [exact Hpdr|].
  intros e'. unfold Game.combat_turn. rewrite He, Hc. cbn [negb].
  unfold Player.attack. rewrite Hpd. cbn [bind]. fold e'.
  assert (Hrange : Enemy.min_damage e' <= Enemy.max_damage e').
  { subst e'. rewrite enemy_take_damage_frame. exact Hen. }
  assert (Hmin : Enemy.min_damage e' = Enemy.min_damage e)
    by (subst e'; rewrite enemy_take_damage_frame; reflexivity).
  assert (Hmax : Enemy.max_damage e' = Enemy.max_damage e)
    by (subst e'; rewrite enemy_take_damage_frame; reflexivity).
  unfold Enemy.is_alive.
  split.
  - intros Hdead. destruct (Z.ltb_spec 0 (Enemy.health e')); [lia|].
    cbn. eexists. reflexivity.
  - intros Halive. destruct (Z.ltb_spec 0 (Enemy.health e')); [|lia].
    cbn [negb].
    destruct (randint_range _ _ (snd (draw r)) Hrange) as (ed & Hed & Hedr).
    exists ed, (snd (draw (snd (draw r)))).
    split; [exact Hed|]. split; [lia|].
    set (p' := Player.take_damage (Game.player g) ed).
    unfold Enemy.attack in Hed. unfold Enemy.attack.
    rewrite Hed. cbn [bind]. cbn [Game.player Game.set_player Game.set_enemy].
    fold p'. split.
    + intros Hd. destruct (Z.leb_spec (Player.health p') 0); [|lia].
      eexists. reflexivity.
    + intros Hd. destruct (Z.leb_spec (Player.health p') 0); [lia|].
      eexists. unfold Game.set_player, Game.set_enemy.
      cbn [Game.in_combat Game.player Game.current_room Game.rooms
           Game.door_unlocked Game.password Game.game_over Game.game_won
           Game.enemy Game.enemy_defeated].
      rewrite Hc. reflexivity.
Qed.

Lemma enemy_ok_take_damage e d :
  enemy_ok e -> 0 <= d -> enemy_ok (Enemy.take_damage e d).
Proof.
  unfold enemy_ok. rewrite enemy_take_damage_frame. cbn.
  intros (? & ? & ? & ? & ?) ?. repeat split; auto; lia.
Qed.

Lemma player_ok_take_damage p d :
  player_ok p -> 0 <= d -> player_ok (Player.take_damage p d).
Proof.
  unfold player_ok. rewrite player_take_damage_frame. cbn.
  intros (? & ? & ? & ?) ?. repeat split; auto; lia.
Qed.

Lemma Inv_combat_turn g r :
  Inv g -> Game.in_combat g = true ->
  exists g' r' out, Game.combat_turn g r = Ok (g', r', out) /\ Inv g'.
Proof.
  intros (Hw & Hp & Hpw & Hph) Hc.
  unfold phase_ok in Hph. rewrite Hc in Hph.
  destruct (Game.enemy g) as [e|] eqn:He; [|contradiction].
  destruct Hph as (Hroom & Hgo & Hgw & Hed & Hh & Heok & Heh).
  assert (Hpr : Player.min_damage (Game.player g)
                <= Player.max_damage (Game.player g))
    by (unfold player_ok in Hp; lia).
  assert (Her : Enemy.min_damage e <= Enemy.max_damage e)
    by (unfold enemy_ok in Heok; lia).
  destruct (combat_turn_round g e r He Hc Hpr Her)
    as (pd & r1 & _ & Hpd & Hround).
  cbv zeta in Hround. destruct Hround as [Hwin Hgoon].
  assert (Hpd0 : 0 <= pd) by (unfold player_ok in Hp; lia).
  pose proof (enemy_ok_take_damage e pd Heok Hpd0) as Heok'.
  destruct Hw as (l & Hrs & Hown & Hcur).
  destruct (Z_le_gt_dec (Enemy.health (Enemy.take_damage e pd)) 0) as [Hd|Ha].
  - destruct (Hwin Hd) as (out & ->). do 3 eexists. split; [reflexivity|].
    unfold Inv, world_ok, phase_ok; cbn.
    split; [exists l; auto|]. split; [exact Hp|]. split; [exact Hpw|].
    split; [exact Hroom|]. split; [reflexivity|]. split; [exact Heok'|].
    left. unfold enemy_ok in Heok'. repeat split; lia.
  - destruct (Hgoon ltac:(lia)) as (ed & r2 & _ & Hed' & Hp').
    cbv zeta in Hp'. destruct Hp' as [Hlose Hlive].
    assert (Hed0 : 0 <= ed) by (unfold enemy_ok in Heok; lia).
    pose proof (player_ok_take_damage _ ed Hp Hed0) as Hpok'.
    assert (Hinv' : Player.inventory (Player.take_damage (Game.player g) ed)
                    = Player.inventory (Game.player g))
      by (rewrite player_take_damage_frame; reflexivity).
    destruct (Z_le_gt_dec
                (Player.health (Player.take_damage (Game.player g) ed)) 0)
      as [Hpd'|Hpa].
    + destruct (Hlose Hpd') as (out & ->). do 3 eexists.
      split; [reflexivity|].
      unfold Inv, world_ok, phase_ok; cbn.
      split; [exists l; rewrite Hinv'; auto|].
      split; [exact Hpok'|]. split; [exact Hpw|].
      split; [exact Hroom|]. split; [reflexivity|]. split; [exact Heok'|].
      right. unfold player_ok in Hpok'. repeat split; auto; lia.
    + destruct (Hlive ltac:(lia)) as (out & ->). do 3 eexists.
      split; [reflexivity|].
      unfold Inv, world_ok, phase_ok; cbn.
      split; [exists l; rewrite Hinv'; auto|].
      split; [exact Hpok'|]. split; [exact Hpw|].
      split; [exact Hroom|]. do 3 (split; [assumption|]).
      split; [lia|]. split; [exact Heok'|lia].
Qed.

(** Every command of the main loop returns, and keeps the invariant. *)
Lemma Inv_process_command g command r :
  Inv g -> Game.game_over g = false ->
  exists g' r' out,
    Game.process_command g command r = Ok (g', r', out) /\ Inv g'.
Proof.
  intros H Hg. unfold Game.process_command.
  destruct (String.eqb _ ""); [do 3 eexists; split; [reflexivity|exact H]|].
  destruct (Game.in_combat g) eqn:Hc.
  { destruct (String.eqb _ "attack").
    - apply Inv_combat_turn; assumption.
    - do 3 eexists; split; [reflexivity|exact H]. }
  unfold Game.pure.
  repeat match goal with
    | |- context [if ?b then _ else _] => destruct b
    end;
    do 3 eexists; (split; [reflexivity|]); cbn [fst];
    auto using Inv_quit, Inv_move, Inv_take_key, Inv_unlock_door.
  - unfold Game.read_note. destruct (Room.get_item _ _); exact H.
  - unfold Game.open_door.
    repeat match goal with
      | |- context [if ?b then _ else _] => destruct b
      end; exact H.
Qed.

Lemma reachable_Inv g : reachable g -> Inv g.
Proof.
  induction 1 as [|g line r g' r' out _ IH Hg Hs]; [exact Inv_init|].
  destruct (Inv_process_command g (Str.strip line) r IH Hg)
    as (g1 & r1 & out1 & Hs1 & Hinv).
  rewrite Hs in Hs1. inversion Hs1; subst. exact Hinv.
Qed.

(** ** The main loop *)

Lemma loop_reachable inputs : forall g r g' out,
  reachable g -> Game.loop g inputs r = Ok (g', out) -> reachable g'.
Proof.
  induction inputs as [|i rest IH]; intros g r g' out Hr; cbn.
  - destruct (Game.game_over g); intros E; inversion E; subst; exact Hr.
  - destruct (Game.game_over g) eqn:Hg;
      [intros E; inversion E; subst; exact Hr|].
    destruct i as [s|]; [|intros E; inversion E; subst; exact Hr].
    destruct (Game.process_command g (Str.strip s) r)
      as [[[g1 r1] out1]|] eqn:Hs; cbn; [|discriminate].
    destruct (Game.loop g1 rest r1) as [[g2 out2]|] eqn:Hl; cbn;
      [|discriminate].
    intros E; inversion E; subst.
    eapply IH; [|exact Hl]. eapply reach_step; eassumption.
Qed.

Lemma after_reachable commands r : reachable (after commands r).
Proof.
  unfold after.
  destruct (Game.loop Game.init (map Game.Line commands) r)
    as [[g out]|] eqn:Hl; [|exact reach_init].
  eapply loop_reachable; [exact reach_init|exact Hl].
Qed.

(** The game never stops on an exception. *)
Lemma loop_returns inputs : forall g r,
  Inv g -> exists g' out, Game.loop g inputs r = Ok (g', out).
Proof.
  induction inputs as [|i rest IH]; intros g r Hi; cbn.
  - destruct (Game.game_over g); eauto.
  - destruct (Game.game_over g) eqn:Hg; [eauto|].
    destruct i as [s|]; [|eauto].
    destruct (Inv_process_command g (Str.strip s) r Hi Hg)
      as (g1 & r1 & out1 & -> & Hi1). cbn.
    destruct (IH g1 r1 Hi1) as (g2 & out2 & ->). cbn. eauto.
Qed.

Lemma main_returns inputs r :
  exists g out, Game.main inputs r = Ok (g, out) /\ reachable g.
Proof.
  unfold Game.main, Game.run.
  destruct (loop_returns inputs Game.init r Inv_init) as (g & out & Hl).
  rewrite Hl. cbn. do 2 eexists. split; [reflexivity|].
  eapply loop_reachable; [exact reach_init|exact Hl].
Qed.

(** ** Frame lemmas for [process_command] *)

Lemma process_command_blank g command r :
  normal command = "" -> Game.process_command g command r = Ok (g, r, []).
Proof.
  intros H. unfold Game.process_command. fold (normal command).
  rewrite H. reflexivity.
Qed.

Lemma process_command_in_combat g command r :
  Game.in_combat g = true -> normal command <> "" ->
  Game.process_command g command r
  = if String.eqb (normal command) "attack" then Game.combat_turn g r
    else Ok (g, r, [MsgCombatOnly]).
Proof.
  intros Hc Hn. unfold Game.process_command. fold (normal command).
  destruct (String.eqb_spec (normal command) ""); [contradiction|].
  rewrite Hc. reflexivity.
Qed.

(** [step] keeps [won_ok] and [door_open], whatever the state. *)
Lemma combat_turn_flags g r g' r' out :
  Game.combat_turn g r = Ok (g', r', out) ->
  (won_ok g -> won_ok g') /\ (door_open g -> door_open g').
Proof.
  unfold Game.combat_turn, won_ok, door_open.
  destruct (Game.enemy g) as [e|]; [|intros E; inversion E; subst; tauto].
  destruct (negb (Game.in_combat g)); [intros E; inversion E; subst; tauto|].
  destruct (Player.attack _ _) as [[pd r1]|]; cbn; [|discriminate].
  destruct (negb (Enemy.is_alive _)).
  { intros E; inversion E; subst; cbn. tauto. }
  destruct (Enemy.attack _ _) as [[ed r2]|]; cbn; [|discriminate].
  destruct (_ <=? 0); intros E; inversion E; subst; cbn; tauto.
Qed.

Lemma move_flags g d :
  (won_ok g -> won_ok (fst (Game.move g d)))
  /\ (door_open g -> door_open (fst (Game.move g d))).
Proof.
  unfold Game.move, won_ok, door_open.
  repeat match goal with
    | |- context [if ?b then _ else _] => destruct b
    | |- context [match ?o with Some _ => _ | None => _ end] => destruct o
    end; cbn; tauto.
Qed.

Lemma take_key_flags g :
  (won_ok g -> won_ok (fst (Game.take_key g)))
  /\ (door_open g -> door_open (fst (Game.take_key g))).
Proof.
  unfold Game.take_key, won_ok, door_open, Room.get_item, Room.remove_item,
    Game.set_here, Game.here.
  destruct (find _ _); cbn; [|tauto].
  split; [tauto|]. destruct (Game.current_room g); cbn; tauto.
Qed.

Lemma unlock_door_flags g pw :
  (won_ok g -> won_ok (fst (Game.unlock_door g pw)))
  /\ (door_open g -> door_open (fst (Game.unlock_door g pw))).
Proof.
  unfold Game.unlock_door, won_ok, door_open.
  repeat match goal with
    | |- context [if ?b then _ else _] => destruct b eqn:?
    end; cbn; intuition congruence.
Qed.

Lemma step_flags g g' :
  step g g' -> (won_ok g -> won_ok g') /\ (door_open g -> door_open g').
Proof.
  intros [g0 command r g1 r1 out Hs]. revert Hs.
  unfold Game.process_command.
  destruct (String.eqb _ ""); [intros E; inversion E; subst; tauto|].
  destruct (Game.in_combat g0).
  { destruct (String.eqb _ "attack");
      [apply combat_turn_flags|intros E; inversion E; subst; tauto]. }
  unfold Game.pure.
  repeat match goal with
    | |- context [if ?b then _ else _] => destruct b
    end; intros E; inversion E; subst;
    auto using move_flags, take_key_flags, unlock_door_flags; try tauto.
  - unfold won_ok, door_open; cbn. tauto.
  - unfold Game.read_note. destruct (Room.get_item _ _); cbn; tauto.
  - unfold Game.open_door.
    repeat match goal with
      | |- context [if ?b then _ else _] => destruct b
      end; cbn; tauto.
Qed.

Lemma steps_flags g g' :
  steps g g' -> (won_ok g -> won_ok g') /\ (door_open g -> door_open g').
Proof.
  induction 1 as [|g g1 g2 Hs _ IH]; [tauto|].
  destruct (step_flags _ _ Hs). tauto.
Qed.

(** ** Unlocking the door *)

Lemma has_item_iff p n :
  Player.has_item p n = true
  <-> exists it, In it (Player.inventory p)
                 /\ Str.lower (Item.name it) = Str.lower n.
Proof.
  unfold Player.has_item. rewrite existsb_exists.
  split; intros (it & Hin & H); exists it; (split; [exact Hin|]);
    unfold Item.named in *; now apply String.eqb_eq.
Qed.

(** C1. [unlock_door(p)] checks in this order: an unlocked door is
    reported as already unlocked and nothing changes; otherwise a player
    without an item named "key" is told so and nothing changes; otherwise,
    when [p] is the stored password, [door_unlocked] becomes true and the
    start room's [north_door_locked] false, nothing else changes, and no
    later command undoes either; any other [p] is reported as incorrect
    and the state, [door_unlocked = false] included, is unchanged.  In
    every state of the main loop the stored password is "SHADOW". *)
Theorem unlock_door_checks (g : Game.t) (p : string) :
  (Game.door_unlocked g = true ->
   Game.unlock_door g p = (g, [MsgAlreadyUnlocked]))
  /\ (Game.door_unlocked g = false ->
      Player.has_item (Game.player g) "key" = false ->
      Game.unlock_door g p = (g, [MsgNoKey]))
  /\ (Game.door_unlocked g = false ->
      Player.has_item (Game.player g) "key" = true ->
      p = Game.password g ->
      exists g',
        Game.unlock_door g p = (g', [MsgUnlocked])
        /\ Game.door_unlocked g' = true
        /\ Room.north_door_locked (Rooms.get (Game.rooms g') room1) = false
        /\ g' = Game.set_rooms (Game.set_door_unlocked g true)
                  (Rooms.set (Game.rooms g) room1
                     (Room.set_north_door_locked
                        (Rooms.get (Game.rooms g) room1) false))
        /\ forall g'', steps g' g'' ->
             Game.door_unlocked g'' = true
             /\ Room.north_door_locked (Rooms.get (Game.rooms g'') room1)
                = false)
  /\ (Game.door_unlocked g = false ->
      Player.has_item (Game.player g) "key" = true ->
      p <> Game.password g ->
      Game.unlock_door g p = (g, [MsgWrongPassword])
      /\ Game.door_unlocked (fst (Game.unlock_door g p)) = false)
  /\ (reachable g -> Game.password g = "SHADOW").
Proof.
  unfold Game.unlock_door. split; [|split; [|split; [|split]]].
  - intros ->. reflexivity.
  - intros -> ->. reflexivity.
  - intros -> -> ->. rewrite String.eqb_refl. eexists.
    split; [reflexivity|]. split; [reflexivity|]. split; [reflexivity|].
    split; [reflexivity|].
    intros g'' Hs. apply (steps_flags _ _ Hs). split; reflexivity.
  - intros H -> Hp. rewrite H.
    destruct (String.eqb_spec p (Game.password g)); [contradiction|].
    split; [reflexivity|exact H].
  - intros Hr. apply reachable_Inv in Hr. apply Hr.
Qed.

(** The third check of C1 at work: with the key taken, "SHADOW" unlocks
    the door. *)
Lemma unlock_door_checks_witness :
  exists g',
    Game.unlock_door (after ["take key"] zeros) "SHADOW" = (g', [MsgUnlocked])
    /\ Game.door_unlocked g' = true
    /\ Room.north_door_locked (Rooms.get (Game.rooms g') room1) = false.
Proof.
  destruct (unlock_door_checks (after ["take key"] zeros) "SHADOW")
    as (_ & _ & H & _).
  destruct H as (g' & H1 & H2 & H3 & _); [reflexivity..|].
  exists g'. repeat split; assumption.
Defined.

(** ** Damage *)

(** C3, as stated, fails: negative damage heals, past [max_health]. *)
Lemma take_damage_negative_counterexample :
  Player.health Player.init <= Player.max_health Player.init
  /\ Player.health (Player.take_damage Player.init (-5)) = 25
  /\ Player.max_health (Player.take_damage Player.init (-5)) = 20
  /\ ~ (forall (p : Player.t) (d : Z),
          Player.health p <= Player.max_health p ->
          Player.health (Player.take_damage p d)
          <= Player.max_health (Player.take_damage p d)).
Proof.
  split; [cbn; lia|]. split; [reflexivity|]. split; [reflexivity|].
  intros H. specialize (H Player.init (-5)). cbn in H. lia.
Qed.

(** C3, amended.  For a player or an enemy and any [d], the health after
    [take_damage(d)] is [max(0, health_before - d)] and [max_health] is
    unchanged; for [d >= 0] and [max_health >= 0] a health within
    [max_health] stays within it.
    In every state of the main loop the health of the player and of the
    enemy is within its [max_health]. *)
Theorem take_damage_clamps (d : Z) :
  (forall p : Player.t,
     Player.health (Player.take_damage p d) = Z.max 0 (Player.health p - d)
     /\ Player.max_health (Player.take_damage p d) = Player.max_health p)
  /\ (forall e : Enemy.t,
        Enemy.health (Enemy.take_damage e d) = Z.max 0 (Enemy.health e - d)
        /\ Enemy.max_health (Enemy.take_damage e d) = Enemy.max_health e)
  /\ (0 <= d ->
      (forall p : Player.t,
         0 <= Player.max_health p ->
         Player.health p <= Player.max_health p ->
         Player.health (Player.take_damage p d)
         <= Player.max_health (Player.take_damage p d))
      /\ (forall e : Enemy.t,
            0 <= Enemy.max_health e ->
            Enemy.health e <= Enemy.max_health e ->
            Enemy.health (Enemy.take_damage e d)
            <= Enemy.max_health (Enemy.take_damage e d)))
  /\ (forall g : Game.t,
        reachable g ->
        Player.health (Game.player g) <= Player.max_health (Game.player g)
        /\ forall e, Game.enemy g = Some e ->
                     Enemy.health e <= Enemy.max_health e).
Proof.
  split; [|split; [|split]].
  - intros p. rewrite player_take_damage_frame. cbn. split; reflexivity.
  - intros e. rewrite enemy_take_damage_frame. cbn. split; reflexivity.
  - intros Hd. split.
    + intros p Hm Hp. rewrite player_take_damage_frame. cbn. lia.
    + intros e Hm He. rewrite enemy_take_damage_frame. cbn. lia.
  - intros g Hr. apply reachable_Inv in Hr.
    destruct Hr as (_ & Hp & _ & Hph). split.
    + unfold player_ok in Hp. lia.
    + intros e He. unfold phase_ok in Hph. rewrite He in Hph.
      destruct (Game.in_combat g).
      * destruct Hph as (_ & _ & _ & _ & _ & Hok & _).
        unfold enemy_ok in Hok. lia.
      * destruct Hph as (_ & _ & Hok & _). unfold enemy_ok in Hok. lia.
Qed.

(** C3 at a damage of 3 on the fresh player: 20 becomes 17, within 20. *)
Lemma take_damage_clamps_witness :
  0 <= 3
  /\ Player.health (Player.take_damage Player.init 3) = 17
  /\ Player.health (Player.take_damage Player.init 3)
     <= Player.max_health (Player.take_damage Player.init 3).
Proof.
  destruct (take_damage_clamps 3) as (Hp & _ & Hb & _).
  split; [lia|]. split.
  - exact (proj1 (Hp Player.init)).
  - apply (proj1 (Hb ltac:(lia)) Player.init); cbn; lia.
Defined.

(** ** Blank lines *)



(** ** The vocabulary of combat *)




(** ** Going north *)

Lemma prefix_split p : forall s,
  Str.startswith p s = true -> s = p ++ Str.slice_from (String.length p) s.
Proof.
  unfold Str.startswith.
  induction p as [|a p IH]; intros s; [reflexivity|].
  destruct s as [|b s]; cbn; [discriminate|].
  destruct (ascii_dec a b) as [->|]; [|discriminate].
  intros H. f_equal. apply IH, H.
Qed.

(** How [process_command] treats a line that starts with "go ". *)
Lemma go_dispatch g command r d :
  go_direction command = Some d ->
  Game.process_command g command r
  = if Game.in_combat g then Ok (g, r, [MsgCombatOnly])
    else Game.pure r (Game.move g d).
Proof.
  unfold go_direction, Game.process_command. fold (normal command).
  destruct (Str.startswith "go " (normal command)) eqn:Hgo; [|discriminate].
  intros E; inversion E; subst d; clear E.
  assert (Hm : forall x, Game.move g (Str.lower x) = Game.move g x).
  { intros x. unfold Game.move.
    replace (Str.lower (Str.lower x)) with (Str.lower x); [reflexivity|].
    induction x as [|c x IH]; cbn; [reflexivity|]. rewrite <- IH. f_equal.
    destruct c as [[] [] [] [] [] [] [] []]; reflexivity. }
  rewrite Hm.
  pose proof (prefix_split _ _ Hgo) as Hc. cbn [String.length] in Hc.
  set (rest := Str.slice_from 3 (normal command)) in *.
  rewrite Hc. cbn [append].
  destruct (Game.in_combat g); reflexivity.
Qed.

Lemma go_north_direction : go_direction "go north" = Some "north".
Proof. reflexivity. Qed.

(** C4, as stated, fails: the arena has no north exit, and "go north"
    typed there during the fight is answered by the combat reminder, not
    by "You can't go that way". *)
Lemma go_north_in_combat_counterexample :
  reachable (after to_arena zeros)
  /\ Room.north (Game.here (after to_arena zeros)) = None
  /\ Game.process_command (after to_arena zeros) "go north" zeros
     = Ok (after to_arena zeros, zeros, [MsgCombatOnly])
  /\ Game.process_command (after to_arena zeros) "go north" zeros
     <> Ok (after to_arena zeros, zeros, [MsgCantGo]).
Proof.
  split; [apply after_reachable|]. split; [reflexivity|].
  rewrite (go_dispatch _ _ _ _ go_north_direction).
  change (Game.in_combat (after to_arena zeros)) with true.
  generalize (after to_arena zeros); intros g.
  split; [reflexivity|discriminate].
Qed.

(** C4, amended.  For a line that asks to go north ("go north" in any
    case, with any white space around the words): outside combat, in a
    room with a north exit whose lock flag is set, the game prints the
    locked-door message and the whole state, [current_room] included, is
    unchanged; outside combat, in a room with no north exit, it prints
    "You can't go that way" and the state is unchanged; during combat it
    prints the combat reminder and the state is unchanged. *)
Theorem go_north_blocked (g : Game.t) (command : string) (r : Rng) :
  go_direction command = Some "north" ->
  (Game.in_combat g = false ->
   (forall dest, Room.north (Game.here g) = Some dest ->
                 Room.north_door_locked (Game.here g) = true ->
                 Game.process_command g command r = Ok (g, r, [MsgDoorLocked]))
   /\ (Room.north (Game.here g) = None ->
       Game.process_command g command r = Ok (g, r, [MsgCantGo])))
  /\ (Game.in_combat g = true ->
      Game.process_command g command r = Ok (g, r, [MsgCombatOnly])).
Proof.
  intros Hn. rewrite (go_dispatch g command r _ Hn).
  split; intros ->; [|reflexivity].
  unfold Game.pure, Game.move.
  change (String.eqb (Str.lower "north") "north") with true. cbv iota.
  split.
  - intros dest -> ->. reflexivity.
  - intros ->. reflexivity.
Qed.

(** C4 at the start of the game: the north door of the start room is
    locked. *)
Lemma go_north_blocked_witness :
  Game.process_command Game.init " Go  North" zeros
  = Ok (Game.init, zeros, [MsgDoorLocked]).
Proof.
  destruct (go_north_blocked Game.init " Go  North" zeros eq_refl)
    as [H _].
  destruct (H eq_refl) as [Hl _].
  apply (Hl room2); reflexivity.
Defined.

(** ** A round of combat *)



(** ** Combat and the flags *)



Lemma steps_snoc g g' g'' : steps g g' -> step g' g'' -> steps g g''.
Proof.
  induction 1 as [g|g g1 g2 Hs _ IH]; intros Hlast.
  - eapply steps_cons; [exact Hlast|apply steps_refl].
  - eapply steps_cons; [exact Hs|apply IH, Hlast].
Qed.

Lemma reachable_steps g : reachable g -> steps Game.init g.
Proof.
  induction 1 as [|g line r g' r' out _ IH _ Hs]; [apply steps_refl|].
  eapply steps_snoc; [exact IH|]. econstructor. exact Hs.
Qed.

(** The one place where [game_won] is set. *)
Lemma combat_turn_wins g r g' r' out :
  Game.combat_turn g r = Ok (g', r', out) ->
  Game.game_won g = false -> Game.game_won g' = true ->
  Game.in_combat g = true /\ Game.in_combat g' = false
  /\ Game.game_over g' = true /\ Game.enemy_defeated g' = true
  /\ exists e, Game.enemy g' = Some e /\ Enemy.health e = 0.
Proof.
  unfold Game.combat_turn.
  destruct (Game.enemy g) as [e|];
    [|intros E; inversion E; subst; congruence].
  destruct (Game.in_combat g); cbn [negb];
    [|intros E; inversion E; subst; congruence].
  destruct (Player.attack _ _) as [[pd r1]|]; cbn [bind]; [|discriminate].
  unfold Enemy.is_alive.
  destruct (Z.ltb_spec 0 (Enemy.health (Enemy.take_damage e pd)))
    as [Hpos|Hz]; cbn [negb].
  - destruct (Enemy.attack _ _) as [[ed r2]|]; cbn [bind]; [|discriminate].
    destruct (_ <=? 0); intros E; inversion E; subst; cbn; congruence.
  - intros E; inversion E; subst; cbn. intros _ _.
    repeat split. eexists. split; [reflexivity|].
    rewrite enemy_take_damage_health in *. lia.
Qed.

Lemma process_command_wins g command r g' r' out :
  Game.process_command g command r = Ok (g', r', out) ->
  Game.game_won g = false -> Game.game_won g' = true ->
  normal command = "attack"
  /\ Game.in_combat g = true /\ Game.in_combat g' = false
  /\ Game.game_over g' = true /\ Game.enemy_defeated g' = true
  /\ exists e, Game.enemy g' = Some e /\ Enemy.health e = 0.
Proof.
  unfold Game.process_command. fold (normal command).
  destruct (String.eqb (normal command) "");
    [intros E; inversion E; subst; congruence|].
  destruct (Game.in_combat g) eqn:Hc.
  { destruct (String.eqb_spec (normal command) "attack") as [Ha|_];
      [|intros E; inversion E; subst; congruence].
    intros Hs H0 H1. split; [exact Ha|].
    destruct (combat_turn_wins _ _ _ _ _ Hs H0 H1) as (_ & H). auto. }
  unfold Game.pure.
  repeat match goal with
    | |- context [if ?b then _ else _] => destruct b
    end; intros E; inversion E; subst; cbn; try congruence.
  - unfold Game.move.
    repeat match goal with
      | |- context [if ?b then _ else _] => destruct b
      | |- context [match ?o with Some _ => _ | None => _ end] => destruct o
      end; cbn; congruence.
  - unfold Game.take_key. destruct (Room.get_item _ _); cbn; congruence.
  - unfold Game.read_note. destruct (Room.get_item _ _); cbn; congruence.
  - unfold Game.unlock_door.
    repeat match goal with
      | |- context [if ?b then _ else _] => destruct b
      end; cbn; congruence.
  - unfold Game.open_door.
    repeat match goal with
      | |- context [if ?b then _ else _] => destruct b
      end; cbn; congruence.
Qed.

(** C10. In every state that calls of [process_command] lead to from the
    initial state, [game_won] implies [game_over] and [enemy_defeated];
    and the call that sets [game_won] is an "attack" during combat that
    brings the enemy's health to 0, and it sets [game_over] and
    [enemy_defeated] with it. *)
Theorem won_implies_over (g : Game.t) :
  steps Game.init g ->
  (Game.game_won g = true ->
   Game.game_over g = true /\ Game.enemy_defeated g = true)
  /\ (forall command r g' r' out,
        Game.process_command g command r = Ok (g', r', out) ->
        Game.game_won g = false -> Game.game_won g' = true ->
        normal command = "attack"
        /\ Game.in_combat g = true /\ Game.in_combat g' = false
        /\ Game.game_over g' = true /\ Game.enemy_defeated g' = true
        /\ exists e, Game.enemy g' = Some e /\ Enemy.health e = 0).
Proof.
  intros Hs. split.
  - apply (steps_flags _ _ Hs). unfold won_ok. cbn. discriminate.
  - intros command r g' r' out. apply process_command_wins.
Qed.

(** C10 after the won fight. *)
Lemma won_implies_over_witness :
  Game.game_won won_game = true
  /\ Game.game_over won_game = true /\ Game.enemy_defeated won_game = true.
Proof.
  split; [reflexivity|].
  assert (Hs : steps Game.init won_game)
    by (apply reachable_steps; unfold won_game; apply after_reachable).
  destruct (won_implies_over won_game Hs) as [H _].
  apply H. reflexivity.
Defined.

(** ** Entering the arena *)




(** ** Taking the key *)

Lemma item_eqb_refl x : Item.eqb x x = true.
Proof.
  unfold Item.eqb. now rewrite !String.eqb_refl, Bool.eqb_reflx.
Qed.

Lemma item_eqb_eq x y : Item.eqb x y = true -> x = y.
Proof.
  unfold Item.eqb. intros H.
  apply andb_true_iff in H as [H Ht]. apply andb_true_iff in H as [Hn Hd].
  apply String.eqb_eq in Hn, Hd. apply Bool.eqb_prop in Ht.
  destruct x, y; cbn in *; congruence.
Qed.

(** [list.remove] after a search by name takes out the item that the
    search found, the first of that name. *)
Lemma list_remove_found f l k :
  find f l = Some k ->
  exists l1 l2, l = (l1 ++ k :: l2)%list
                /\ Room.list_remove k l = (l1 ++ l2)%list
                /\ forall y, In y l1 -> f y = false.
Proof.
  induction l as [|y l IH]; cbn; [discriminate|].
  destruct (f y) eqn:Hf.
  - intros E; inversion E; subst. rewrite item_eqb_refl.
    exists [], l. repeat split. intros ? [].
  - intros Hk. destruct (IH Hk) as (l1 & l2 & -> & Hrem & Hno).
    destruct (Item.eqb y k) eqn:Hyk.
    + apply item_eqb_eq in Hyk. subst y.
      apply find_some in Hk. destruct Hk as [_ Hfk]. congruence.
    + exists (y :: l1), l2. cbn. rewrite Hrem. repeat split.
      intros z [<-|Hz]; auto.
Qed.

Lemma occurrences_app x l1 l2 :
  occurrences x (l1 ++ l2) = (occurrences x l1 + occurrences x l2)%nat.
Proof.
  induction l1 as [|y l1 IH]; cbn; [reflexivity|]. rewrite IH. lia.
Qed.

(** [take_key] moves one occurrence of the key from the room to the
    inventory, in any state: a transfer, not a copy. *)
Lemma take_key_conserves g k :
  Room.get_item (Game.here g) "key" = Some k ->
  holders k (fst (Game.take_key g)) = holders k g
  /\ occurrences k (Player.inventory (Game.player (fst (Game.take_key g))))
     = S (occurrences k (Player.inventory (Game.player g)))
  /\ S (occurrences k (Room.items (Game.here (fst (Game.take_key g)))))
     = occurrences k (Room.items (Game.here g)).
Proof.
  intros Hk. unfold Game.take_key. rewrite Hk.
  unfold Room.get_item in Hk. unfold Room.remove_item. rewrite Hk.
  destruct (list_remove_found _ _ _ Hk) as (l1 & l2 & Hl & Hrem & _).
  unfold holders, Game.here, Game.set_here in *. cbn.
  rewrite occurrences_app. cbn. rewrite item_eqb_refl.
  destruct (Game.current_room g); cbn in *;
    rewrite Hrem, Hl, !occurrences_app; cbn; rewrite item_eqb_refl; lia.
Qed.

Lemma take_key_dispatch g command r :
  In (normal command) take_forms -> Game.in_combat g = false ->
  Game.process_command g command r = Game.pure r (Game.take_key g).
Proof.
  intros Hin Hc. unfold Game.process_command. fold (normal command).
  rewrite Hc.
  destruct Hin as [<-|[<-|[<-|[]]]]; reflexivity.
Qed.

Lemma here_set_here g v p :
  Game.here (Game.set_player (Game.set_here g v) p) = v.
Proof.
  unfold Game.here, Game.set_here; cbn. destruct (Game.current_room g);
    reflexivity.
Qed.

(** In the main loop the key is never in the room of a fight, and it is
    the only item of its name. *)
Lemma reachable_key_here g k :
  reachable g -> Room.get_item (Game.here g) "key" = Some k ->
  Game.in_combat g = false
  /\ Room.items (Game.here g) = [k]
  /\ Player.inventory (Game.player g) = []
  /\ holders k g = 1%nat.
Proof.
  intros Hr Hk. apply reachable_Inv in Hr. open_inv Hr.
  unfold Game.here, Room.get_item in Hk. cbn in Hk.
  destruct cur; destruct Hown as [[-> ->]|[-> ->]]; cbn in Hk;
    try discriminate.
  inversion Hk; subst. unfold Game.here; cbn. repeat split.
  unfold phase_ok in Hph. cbn in Hph.
  destruct ic; [|reflexivity].
  destruct en; [destruct Hph as (? & _); discriminate|contradiction].
Qed.

(** C8. Where the current room holds an item named "key" (in any case),
    each of "take key", "pick up key" and "get key", outside combat,
    removes that item from the room's list and appends it to the
    inventory, and changes nothing else: one occurrence moves from the
    room to the inventory, and the number of places that hold the item
    stays the same.  When the room then holds no other item of that name,
    another take reports that there is no key and changes nothing.  In the
    main loop a room with the key is never a place of combat, and after
    the take the room holds no key, the inventory holds it once, and it is
    held in exactly one place. *)
Theorem take_key_transfers (g : Game.t) (command : string) (r : Rng)
    (k : Item.t) :
  In (normal command) take_forms ->
  Room.get_item (Game.here g) "key" = Some k ->
  Game.in_combat g = false \/ reachable g ->
  exists g',
    Game.process_command g command r = Ok (g', r, [MsgTookKey])
    /\ g' = Game.set_player
              (Game.set_here g
                 (Room.set_items (Game.here g)
                    (Room.list_remove k (Room.items (Game.here g)))))
              (Player.set_inventory (Game.player g)
                 (Player.inventory (Game.player g) ++ [k])%list)
    /\ Room.items (Game.here g') = Room.list_remove k (Room.items (Game.here g))
    /\ Player.inventory (Game.player g')
       = (Player.inventory (Game.player g) ++ [k])%list
    /\ S (occurrences k (Room.items (Game.here g')))
       = occurrences k (Room.items (Game.here g))
    /\ occurrences k (Player.inventory (Game.player g'))
       = S (occurrences k (Player.inventory (Game.player g)))
    /\ holders k g' = holders k g
    /\ (Room.get_item (Game.here g') "key" = None ->
        forall command' r',
          In (normal command') take_forms ->
          Game.process_command g' command' r' = Ok (g', r', [MsgNoKeyHere]))
    /\ (reachable g ->
        Room.get_item (Game.here g') "key" = None
        /\ occurrences k (Room.items (Game.here g')) = 0%nat
        /\ occurrences k (Player.inventory (Game.player g')) = 1%nat
        /\ holders k g' = 1%nat).
Proof.
  intros Hin Hk Hmode.
  assert (Hc : Game.in_combat g = false).
  { destruct Hmode as [Hc|Hr]; [exact Hc|].
    apply (reachable_key_here g k Hr Hk). }
  destruct (take_key_conserves g k Hk) as (Hhold & Hinv & Hroom).
  rewrite (take_key_dispatch g command r Hin Hc).
  unfold Game.pure. revert Hhold Hinv Hroom.
  unfold Game.take_key. rewrite Hk.
  unfold Room.remove_item. unfold Room.get_item in Hk. rewrite Hk.
  cbn [fst snd]. intros Hhold Hinv Hroom.
  eexists. split; [reflexivity|]. split; [reflexivity|].
  split; [rewrite here_set_here; reflexivity|].
  split; [reflexivity|].
  split; [exact Hroom|]. split; [exact Hinv|]. split; [exact Hhold|].
  split.
  - intros Hnone command' r' Hin'.
    rewrite take_key_dispatch by assumption.
    unfold Game.pure, Game.take_key. rewrite Hnone. reflexivity.
  - intros Hr.
    destruct (reachable_key_here g k Hr Hk) as (_ & Hitems & Hinv0 & Hone).
    split; [|split; [|split]].
    + rewrite here_set_here. unfold Room.get_item.
      cbn [Room.items Room.set_items]. rewrite Hitems. cbn.
      rewrite item_eqb_refl. reflexivity.
    + rewrite here_set_here. cbn [Room.items Room.set_items].
      rewrite Hitems. cbn. rewrite item_eqb_refl. reflexivity.
    + rewrite Hinv, Hinv0. reflexivity.
    + rewrite Hhold. exact Hone.
Qed.

(** C8 at the start of the game, where the key lies in the start room. *)
Lemma take_key_transfers_witness :
  exists g',
    Game.process_command Game.init "pick up key" zeros
    = Ok (g', zeros, [MsgTookKey])
    /\ Room.items (Game.here g') = []
    /\ Player.inventory (Game.player g') = [Game.key]
    /\ Game.process_command g' "take key" zeros
       = Ok (g', zeros, [MsgNoKeyHere]).
Proof.
  destruct (take_key_transfers Game.init "pick up key" zeros Game.key
              (or_intror (or_introl eq_refl)) eq_refl (or_introl eq_refl))
    as (g' & Hs & _ & Hroom & Hinv & _ & _ & _ & Hagain & Hloop).
  exists g'. split; [exact Hs|]. split; [exact Hroom|].
  split; [exact Hinv|].
  apply Hagain; [apply (Hloop reach_init)|left; reflexivity].
Defined.

(** ** The door command *)

(** How [process_command] treats a line that starts with
    "unlock door with ". *)
Lemma unlock_dispatch g command r pw :
  unlock_attempt command = Some pw -> Game.in_combat g = false ->
  Game.process_command g command r = Game.pure r (Game.unlock_door g pw).
Proof.
  unfold unlock_attempt, Game.process_command. fold (normal command).
  destruct (Str.startswith "unlock door with " (normal command)) eqn:Hu;
    [|discriminate].
  intros E Hc; inversion E; subst pw; clear E. rewrite Hc.
  pose proof (prefix_split _ _ Hu) as Hs. cbn [String.length] in Hs.
  set (rest := Str.slice_from 17 (normal command)) in *.
  rewrite Hs. cbn [append]. reflexivity.
Qed.

(** The password is accepted in any case and with white space around
    it. *)
Example unlock_attempt_shadow :
  unlock_attempt "Unlock door with  Shadow " = Some "SHADOW".
Proof. reflexivity. Qed.

(** ** A walk through the dungeon *)

(** The scenario of a whole game: the locked door, the note, the way to
    the arena, and two rounds that win the fight. *)
Example walkthrough :
  match Game.main
          (map Game.Line
             ["take key"; "go north"; "read note"; "go north";
              "unlock door with SHADOW"; "go north"; "read note";
              "go north"; "attack"; "attack"]) fives
  with
  | Ok (g, out) =>
      Game.game_won g = true /\ Game.game_over g = true
      /\ Game.current_room g = room3
      /\ Player.health (Game.player g) = 18
      /\ skipn 2 out
         = [MsgTookKey; MsgDoorLocked; MsgNoNote; MsgDoorLocked; MsgUnlocked;
            MsgRoom (Room.get_full_description (Rooms.r2 Game.setup_rooms));
            MsgNote "SHADOW";
            MsgRoom (Room.get_full_description (Rooms.r3 Game.setup_rooms));
            MsgCombatStart 10 10 20 20;
            MsgPlayerHit "Dark Warrior" 6 4 10;
            MsgEnemyHit "Dark Warrior" 2 18 20; MsgPrompt;
            MsgPlayerHit "Dark Warrior" 6 0 10; MsgVictory "Dark Warrior"]
  | Raise _ => False
  end.
Proof.
  vm_compute. repeat split.
Qed.

(** ** Commands are read up to case and surrounding white space *)



Lemma is_space_upper_char c : Str.is_space (Str.upper_char c) = Str.is_space c.
Proof.
  destruct c as [[] [] [] [] [] [] [] []]; reflexivity.
Qed.



Lemma lstrip_lower s : Str.lstrip (Str.lower s) = Str.lower (Str.lstrip s).
Proof.
  induction s as [|c s IH]; cbn; [reflexivity|].
  rewrite is_space_lower_char. destruct (Str.is_space c); [exact IH|reflexivity].
Qed.

Lemma rstrip_lower s : Str.rstrip (Str.lower s) = Str.lower (Str.rstrip s).
Proof.
  induction s as [|c s IH]; cbn; [reflexivity|].
  rewrite IH, is_space_lower_char.
  destruct (Str.rstrip s); cbn; [destruct (Str.is_space c)|]; reflexivity.
Qed.

Lemma strip_lower s : Str.strip (Str.lower s) = Str.lower (Str.strip s).
Proof.
  unfold Str.strip. now rewrite rstrip_lower, lstrip_lower.
Qed.

Lemma lstrip_idem s : Str.lstrip (Str.lstrip s) = Str.lstrip s.
Proof.
  induction s as [|c s IH]; cbn; [reflexivity|].
  destruct (Str.is_space c) eqn:Hc; [exact IH|]. cbn. now rewrite Hc.
Qed.

Lemma rstrip_cons c u :
  Str.rstrip (String c u)
  = match Str.rstrip u with
    | EmptyString => if Str.is_space c then EmptyString
                     else String c EmptyString
    | t => String c t
    end.
Proof. reflexivity. Qed.

Lemma rstrip_idem s : Str.rstrip (Str.rstrip s) = Str.rstrip s.
Proof.
  induction s as [|c s IH]; [reflexivity|].
  rewrite rstrip_cons.
  destruct (Str.rstrip s) as [|d t] eqn:Ht.
  - destruct (Str.is_space c) eqn:Hc; [reflexivity|].
    rewrite rstrip_cons. cbn. now rewrite Hc.
  - rewrite rstrip_cons, IH. reflexivity.
Qed.

Lemma rstrip_lstrip s : Str.rstrip (Str.lstrip s) = Str.lstrip (Str.rstrip s).
Proof.
  induction s as [|c s IH]; cbn; [reflexivity|].
  destruct (Str.is_space c) eqn:Hc.
  - rewrite IH. destruct (Str.rstrip s); cbn; [reflexivity|].
    now rewrite Hc.
  - cbn. destruct (Str.rstrip s); cbn; now rewrite Hc.
Qed.

Lemma strip_idem s : Str.strip (Str.strip s) = Str.strip s.
Proof.
  unfold Str.strip.
  now rewrite rstrip_lstrip, rstrip_idem, lstrip_idem.
Qed.


Lemma normal_strip command : normal (Str.strip command) = normal command.
Proof.
  unfold normal. now rewrite <- strip_lower, strip_idem.
Qed.


Lemma process_command_normal g c c' r :
  normal c = normal c' ->
  Game.process_command g c r = Game.process_command g c' r.
Proof.
  intros H. unfold Game.process_command. fold (normal c) (normal c').
  rewrite H. reflexivity.
Qed.


(** The main loop's own [strip] changes nothing. *)
Lemma reach_command g command r g' r' out :
  reachable g -> Game.game_over g = false ->
  Game.process_command g command r = Ok (g', r', out) -> reachable g'.
Proof.
  intros Hr Hg Hs. apply (reach_step g command r g' r' out Hr Hg).
  rewrite <- Hs. apply process_command_normal, normal_strip.
Qed.

(** ** What a command can and cannot change *)

(** X2. No call of [process_command] resets a flag: [game_over],
    [game_won], [enemy_defeated] and [door_unlocked], once true, stay
    true, and an enemy, once created, stays in the [enemy] field. *)
Theorem flags_never_reset (g : Game.t) (command : string) (r : Rng)
    (g' : Game.t) (r' : Rng) (out : list Msg) :
  Game.process_command g command r = Ok (g', r', out) ->
  (Game.game_over g = true -> Game.game_over g' = true)
  /\ (Game.game_won g = true -> Game.game_won g' = true)
  /\ (Game.enemy_defeated g = true -> Game.enemy_defeated g' = true)
  /\ (Game.door_unlocked g = true -> Game.door_unlocked g' = true)
  /\ (Game.enemy g <> None -> Game.enemy g' <> None).
Proof.
  by_paths; repeat split; intros; congruence.
Qed.




(** X2 on an attack in the arena: the door stays unlocked. *)
Lemma flags_never_reset_witness :
  exists g' r' out,
    Game.process_command (after to_arena zeros) "attack" fives
    = Ok (g', r', out)
    /\ Game.door_unlocked g' = true.
Proof.
  run_command Hs.
  apply (flags_never_reset (after to_arena zeros) "attack" fives _ _ _ Hs).
  reflexivity.
Defined.

(** X4. No call of [process_command] changes the map or the rules: the
    password, every room's name, description, exits and [visited] flag,
    and the player's [max_health] and damage range stay as they are; a
    lock is never set, only cleared; and the player stays put or moves
    through an exit of the current room. *)
Theorem map_fixed (g : Game.t) (command : string) (r : Rng)
    (g' : Game.t) (r' : Rng) (out : list Msg) :
  Game.process_command g command r = Ok (g', r', out) ->
  Game.password g' = Game.password g
  /\ (forall k, same_room (Rooms.get (Game.rooms g) k)
                  (Rooms.get (Game.rooms g') k))
  /\ Player.max_health (Game.player g') = Player.max_health (Game.player g)
  /\ Player.min_damage (Game.player g') = Player.min_damage (Game.player g)
  /\ Player.max_damage (Game.player g') = Player.max_damage (Game.player g)
  /\ (Game.current_room g' = Game.current_room g
      \/ Room.north (Game.here g) = Some (Game.current_room g')
      \/ Room.south (Game.here g) = Some (Game.current_room g')).
Proof.
  unfold same_room.
  by_paths; (split; [reflexivity|]); (split; [intros k|]).
  all: try (repeat split; auto; fail).
  all: try (repeat split; auto; rewrite ?player_take_damage_frame; auto; fail).
  all: unfold Game.here, Room.remove_item; destruct k;
    try destruct (Game.current_room g); try destruct (find _ _);
    cbn; repeat split; auto; discriminate.
Qed.

(** X4 on the command that unlocks the door. *)
Lemma map_fixed_witness :
  exists g' r' out,
    Game.process_command (after ["take key"] zeros) "unlock door with shadow"
      zeros = Ok (g', r', out)
    /\ Game.password g' = "SHADOW".
Proof.
  run_command Hs.
  destruct (map_fixed (after ["take key"] zeros) "unlock door with shadow"
              zeros _ _ _ Hs) as (Hpw & _).
  rewrite Hpw. reflexivity.
Defined.

(** ** The story so far: the key, the door and the fight *)

Lemma story_process_command g command r g' r' out :
  Inv g -> story_ok g -> Game.game_over g = false ->
  Game.process_command g command r = Ok (g', r', out) -> story_ok g'.
Proof.
  intros Hi Hst Hg Hs. open_inv Hi. unfold story_ok, phase_ok in *.
  cbn in Hst, Hg, Hph. subst go. revert Hs.
  unfold Game.process_command. cbn [Game.in_combat].
  destruct ic; [destruct en as [e|]; [|contradiction]|
                destruct en as [e|];
                [destruct Hph as (_ & ? & _); discriminate|]];
    cbv iota; unfold Game.here; cbn [Game.rooms Game.current_room].
  - by_paths.
    all: try (intuition (try congruence; try lia); fail).
    all: unfold Player.take_damage; cbn;
      repeat match goal with
        | |- context [if ?b then _ else _] => destruct b eqn:?
        end; cbn; intuition (try congruence; try lia).
  - by_paths.
    all: try (intuition (try congruence; try lia); fail).
    + destruct du; [|intuition (try congruence; try lia)].
      exfalso. destruct Hst as [Hk _]. specialize (Hk eq_refl). subst inv.
      destruct Hown as [[_ ?]|[-> _]]; [discriminate|].
      unfold Game.here, Room.get_item in *.
      destruct cur; cbn in *; discriminate.
    + destruct Hown as [[-> ->]|[-> ->]]; cbn in *; [discriminate|].
      intuition (try congruence; try lia).
Qed.

Lemma reachable_story g : reachable g -> story_ok g.
Proof.
  induction 1 as [|g line r g' r' out Hr IH Hg Hs].
  - split; cbn; [discriminate|discriminate].
  - eapply story_process_command; eauto using reachable_Inv.
Qed.

(** What a command does to a fight that is on, in the main loop: nothing,
    or one round with its three outcomes. *)
Lemma combat_step g command r g' r' out :
  reachable g -> Game.in_combat g = true ->
  Game.process_command g command r = Ok (g', r', out) ->
  (g' = g /\ normal command <> "attack")
  \/ (normal command = "attack"
      /\ exists e pd,
           Game.enemy g = Some e /\ 1 <= pd <= 6
           /\ Game.enemy g' = Some (Enemy.take_damage e pd)
           /\ Game.current_room g' = Game.current_room g
           /\ ((Enemy.health (Enemy.take_damage e pd) = 0
                /\ Game.player g' = Game.player g
                /\ Game.in_combat g' = false /\ Game.game_over g' = true
                /\ Game.game_won g' = true)
               \/ (0 < Enemy.health (Enemy.take_damage e pd)
                   /\ exists ed,
                        1 <= ed <= 4
                        /\ Game.player g'
                           = Player.take_damage (Game.player g) ed
                        /\ Game.game_won g' = false
                        /\ ((Player.health (Game.player g') = 0
                             /\ Game.in_combat g' = false
                             /\ Game.game_over g' = true)
                            \/ (0 < Player.health (Game.player g')
                                /\ Game.in_combat g' = true
                                /\ Game.game_over g' = false))))).
Proof.
  intros Hr Hc Hs.
  destruct (String.eqb_spec (normal command) "") as [H0|H0].
  { rewrite process_command_blank in Hs by assumption.
    inversion Hs; subst. left; split; [reflexivity|].
    rewrite H0. discriminate. }
  rewrite process_command_in_combat in Hs by assumption.
  destruct (String.eqb_spec (normal command) "attack") as [Ha|Ha];
    [|inversion Hs; subst; left; split; [reflexivity|assumption]].
  right. split; [exact Ha|].
  apply reachable_Inv in Hr. destruct Hr as (_ & Hp & _ & Hph).
  unfold phase_ok in Hph. rewrite Hc in Hph.
  destruct (Game.enemy g) as [e|] eqn:He; [|contradiction].
  destruct Hph as (_ & Hgo & Hgw & _ & _ & Heok & _).
  destruct Hp as (_ & Hmin & Hmax & _).
  destruct Heok as (_ & _ & Hemin & Hemax & _).
  destruct (combat_turn_round g e r He Hc ltac:(lia) ltac:(lia))
    as (pd & r1 & _ & Hpd & Hround).
  cbv zeta in Hround. destruct Hround as [Hwin Hgoon].
  exists e, pd. split; [reflexivity|]. split; [lia|].
  pose proof (enemy_take_damage_health e pd) as Hh.
  destruct (Z_le_gt_dec (Enemy.health (Enemy.take_damage e pd)) 0)
    as [Hd|Halive].
  - destruct (Hwin Hd) as (o & Hw). rewrite Hw in Hs.
    inversion Hs; subst; cbn. split; [reflexivity|]. split; [reflexivity|].
    left. repeat split. lia.
  - destruct (Hgoon ltac:(lia)) as (ed & r2 & _ & Hed & Hl & Hsv).
    pose proof (player_take_damage_health (Game.player g) ed) as Hph'.
    destruct (Z_le_gt_dec
                (Player.health (Player.take_damage (Game.player g) ed)) 0)
      as [Hpd'|Hpa].
    + destruct (Hl Hpd') as (o & Hw). rewrite Hw in Hs.
      inversion Hs; subst; cbn. split; [reflexivity|]. split; [reflexivity|].
      right. split; [lia|].
      exists ed. split; [lia|]. split; [reflexivity|]. split; [assumption|].
      left. repeat split. lia.
    + destruct (Hsv ltac:(lia)) as (o & Hw). rewrite Hw in Hs.
      inversion Hs; subst; cbn. split; [reflexivity|]. split; [reflexivity|].
      right. split; [lia|].
      exists ed. split; [lia|]. split; [reflexivity|]. split; [assumption|].
      right. repeat split; try assumption. lia.
Qed.




(** X6. In the main loop a fight cannot be left: during combat every
    command leaves the player in the arena, and the fight either goes on
    with the game not over, or ends the game, by victory or with the
    player's health at 0. *)
Theorem no_way_out_of_combat (g : Game.t) (command : string) (r : Rng)
    (g' : Game.t) (r' : Rng) (out : list Msg) :
  reachable g ->
  Game.in_combat g = true ->
  Game.process_command g command r = Ok (g', r', out) ->
  Game.current_room g' = room3
  /\ ((Game.in_combat g' = true /\ Game.game_over g' = false)
      \/ (Game.in_combat g' = false /\ Game.game_over g' = true
          /\ (Game.game_won g' = true
              \/ Player.health (Game.player g') = 0))).
Proof.
  intros Hr Hc Hs.
  pose proof (reachable_Inv g Hr) as (_ & _ & _ & Hph).
  unfold phase_ok in Hph. rewrite Hc in Hph.
  destruct (Game.enemy g) as [e0|]; [|contradiction].
  destruct Hph as (Hroom & Hgo & _).
  destruct (combat_step g command r g' r' out Hr Hc Hs)
    as [(-> & _)|(_ & e & pd & _ & _ & _ & Hcur & Hcase)].
  { split; [exact Hroom|left; split; assumption]. }
  split; [congruence|].
  destruct Hcase as [(_ & _ & ? & ? & ?)|(_ & ed & _ & _ & _ & Hcase)].
  - right. auto.
  - destruct Hcase as [(? & ? & ?)|(_ & ? & ?)]; [right|left]; auto.
Qed.

(** X6 on "quit" typed in the arena. *)
Lemma no_way_out_of_combat_witness :
  exists g' r' out,
    Game.process_command (after to_arena zeros) "quit" zeros
    = Ok (g', r', out)
    /\ Game.current_room g' = room3.
Proof.
  run_command Hs.
  apply (no_way_out_of_combat (after to_arena zeros) "quit" zeros _ _ _
           (after_reachable to_arena zeros) eq_refl Hs).
Defined.

(** X7. In the main loop a round of combat ends the game only when the
    enemy's health was at most 6 or the player's at most 4 before it; so
    a fresh fight, at 10 and 20, is never over after one round. *)
Theorem no_sudden_end (g : Game.t) (command : string) (r : Rng)
    (g' : Game.t) (r' : Rng) (out : list Msg) (e : Enemy.t) :
  reachable g ->
  Game.in_combat g = true ->
  Game.enemy g = Some e ->
  Game.process_command g command r = Ok (g', r', out) ->
  Game.game_over g' = true ->
  (Game.game_won g' = true /\ Enemy.health e <= 6)
  \/ (Game.game_won g' = false /\ Player.health (Game.player g) <= 4).
Proof.
  intros Hr Hc He Hs Hover.
  pose proof (reachable_Inv g Hr) as (_ & _ & _ & Hph).
  unfold phase_ok in Hph. rewrite Hc, He in Hph.
  destruct Hph as (_ & Hgo & _).
  destruct (combat_step g command r g' r' out Hr Hc Hs)
    as [(-> & _)|(_ & e1 & pd & He1 & Hpd & _ & _ & Hcase)]; [congruence|].
  rewrite He in He1. inversion He1; subst e1.
  rewrite enemy_take_damage_health in Hcase.
  destruct Hcase as [(Hz & _ & _ & _ & Hw)|(_ & ed & Hed & Hp & Hw & Hcase)].
  - left. split; [exact Hw|lia].
  - right. split; [exact Hw|].
    rewrite Hp, player_take_damage_health in Hcase.
    destruct Hcase as [(? & _)|(_ & _ & ?)]; [lia|congruence].
Qed.

(** X7 on the first round in the arena: the game is not over after it. *)
Lemma no_sudden_end_witness :
  exists g' r' out,
    Game.process_command (after to_arena zeros) "attack" fives
    = Ok (g', r', out)
    /\ Game.game_over g' = false.
Proof.
  run_command Hs.
  match goal with |- Game.game_over ?x = false =>
    destruct (Game.game_over x) eqn:Hover; [|reflexivity] end.
  destruct (no_sudden_end (after to_arena zeros) "attack" fives _ _ _
              (Enemy.mk "Dark Warrior" 10 10 1 4)
              (after_reachable to_arena zeros) eq_refl eq_refl Hs Hover)
    as [[_ H]|[_ H]]; cbn in H; lia.
Defined.

(** ** How a game ends *)

(** X8. In the main loop a game that is over has ended in exactly one of
    three ways: won, with the enemy at 0 and the player alive; lost, with
    the player at 0 and the enemy alive; or quit, outside the arena, with
    no enemy ever met and the player at full health.  No fight is on once
    the game is over. *)
Theorem three_endings (g : Game.t) :
  reachable g ->
  Game.game_over g = true ->
  Game.in_combat g = false
  /\ ((Game.game_won g = true /\ Game.enemy_defeated g = true
       /\ 0 < Player.health (Game.player g)
       /\ exists e, Game.enemy g = Some e /\ Enemy.health e = 0)
      \/ (Game.game_won g = false /\ Game.enemy_defeated g = false
          /\ Player.health (Game.player g) = 0
          /\ exists e, Game.enemy g = Some e /\ 0 < Enemy.health e)
      \/ (Game.game_won g = false /\ Game.enemy_defeated g = false
          /\ Player.health (Game.player g) = 20
          /\ Game.enemy g = None /\ Game.current_room g <> room3)).
Proof.
  intros Hr Hover.
  pose proof (reachable_story g Hr) as (_ & Hwon).
  pose proof (reachable_Inv g Hr) as (_ & _ & _ & Hph).
  unfold phase_ok in Hph.
  destruct (Game.in_combat g).
  { destruct (Game.enemy g); [|contradiction].
    destruct Hph as (_ & ? & _). congruence. }
  split; [reflexivity|].
  destruct (Game.enemy g) as [e|].
  - destruct Hph as (_ & _ & _ & [(Hz & Hw & Hd)|(Hpos & Hp & Hw & Hd)]).
    + left. repeat split; auto. exists e. auto.
    + right. left. repeat split; auto. exists e. auto.
  - destruct Hph as (Hw & Hd & Hroom & Hh). right. right. auto.
Qed.

(** X8 after the won fight. *)
Lemma three_endings_witness :
  Game.game_over won_game = true
  /\ Game.in_combat won_game = false
  /\ Game.game_won won_game = true.
Proof.
  assert (Hr : reachable won_game)
    by (unfold won_game; apply after_reachable).
  destruct (three_endings won_game Hr eq_refl) as (Hc & _).
  split; [reflexivity|]. split; [exact Hc|reflexivity].
Defined.

(** ** The note and the key *)

Lemma note_printed g command r g' r' out pw :
  Game.process_command g command r = Ok (g', r', out) ->
  In (MsgNote pw) out ->
  g' = g /\ pw = Game.password g
  /\ exists it, Room.get_item (Game.here g) "note" = Some it.
Proof.
  by_paths; intros Hin;
    repeat (destruct Hin as [Hin|Hin]; try discriminate);
    try contradiction.
  inversion Hin; subst pw. split; [reflexivity|]. split; [reflexivity|].
  eexists. reflexivity.
Qed.

(** X9. In the main loop the note is read only in the treasury, behind
    the door: whenever a command prints the note, the door is already
    unlocked and the key is in the inventory, the text shown is "SHADOW",
    and the state is unchanged.  The password cannot be read before it has
    been used. *)
Theorem note_behind_door (g : Game.t) (command : string) (r : Rng)
    (g' : Game.t) (r' : Rng) (out : list Msg) (pw : string) :
  reachable g ->
  Game.process_command g command r = Ok (g', r', out) ->
  In (MsgNote pw) out ->
  pw = "SHADOW" /\ g' = g
  /\ Game.current_room g = room2
  /\ Game.door_unlocked g = true
  /\ Player.has_item (Game.player g) "key" = true.
Proof.
  intros Hr Hs Hin.
  destruct (note_printed g command r g' r' out pw Hs Hin)
    as (-> & -> & it & Hnote).
  pose proof (reachable_story g Hr) as (Hkey & _).
  pose proof (reachable_Inv g Hr) as ((l & Hrooms & Hown & Hcur) & _ & Hpw & _).
  split; [exact Hpw|]. split; [reflexivity|].
  assert (Hroom : Game.current_room g = room2).
  { revert Hnote. unfold Game.here, Room.get_item. rewrite Hrooms.
    destruct (Game.current_room g); cbn; [|reflexivity|discriminate].
    destruct Hown as [[-> _]|[-> _]]; cbn; discriminate. }
  split; [exact Hroom|].
  destruct (Game.door_unlocked g) eqn:Hdu.
  - split; [reflexivity|]. unfold Player.has_item.
    rewrite (Hkey eq_refl). reflexivity.
  - specialize (Hcur eq_refl). congruence.
Qed.

(** X9 in the treasury. *)
Lemma note_behind_door_witness :
  exists g' r' out,
    Game.process_command
      (after ["take key"; "unlock door with shadow"; "go north"] zeros)
      "read note" zeros
    = Ok (g', r', out)
    /\ Game.door_unlocked
         (after ["take key"; "unlock door with shadow"; "go north"] zeros)
       = true.
Proof.
  run_command Hs.
  apply (note_behind_door _ "read note" zeros _ _ _ "SHADOW"
           (after_reachable _ zeros) Hs).
  vm_compute in Hs. inversion Hs. left. reflexivity.
Defined.

(** X10. In the main loop nothing is lost or copied: the key is always
    held in exactly one place, the start room or the inventory; the
    inventory never holds anything else; the note never leaves the
    treasury; and the player has the key whenever the door is unlocked or
    the player is past it. *)
Theorem key_and_note (g : Game.t) :
  reachable g ->
  holders Game.key g = 1%nat
  /\ holders Game.note g = 1%nat
  /\ Room.items (Rooms.get (Game.rooms g) room2) = [Game.note]
  /\ (Player.inventory (Game.player g) = []
      \/ Player.inventory (Game.player g) = [Game.key])
  /\ (Game.door_unlocked g = true \/ Game.current_room g <> room1 ->
      Game.door_unlocked g = true
      /\ Player.inventory (Game.player g) = [Game.key]
      /\ Room.items (Rooms.get (Game.rooms g) room1) = []).
Proof.
  intros Hr.
  pose proof (reachable_story g Hr) as (Hkey & _).
  pose proof (reachable_Inv g Hr) as ((l & Hrooms & Hown & Hcur) & _).
  unfold holders. rewrite Hrooms. cbn.
  destruct Hown as [[-> Hi]|[-> Hi]]; rewrite Hi; cbn;
    (split; [reflexivity|]); (split; [reflexivity|]);
    (split; [reflexivity|]); (split; [auto|]).
  - intros Hd. assert (Hu : Game.door_unlocked g = true).
    { destruct Hd as [Hd|Hd]; [exact Hd|].
      destruct (Game.door_unlocked g); [reflexivity|].
      elim Hd. apply Hcur. reflexivity. }
    specialize (Hkey Hu). congruence.
  - intros Hd. assert (Hu : Game.door_unlocked g = true).
    { destruct Hd as [Hd|Hd]; [exact Hd|].
      destruct (Game.door_unlocked g); [reflexivity|].
      elim Hd. apply Hcur. reflexivity. }
    auto.
Qed.

(** X10 in the arena. *)
Lemma key_and_note_witness :
  holders Game.key (after to_arena zeros) = 1%nat
  /\ Player.inventory (Game.player (after to_arena zeros)) = [Game.key].
Proof.
  destruct (key_and_note (after to_arena zeros)
              (after_reachable to_arena zeros)) as (H1 & _ & _ & _ & H2).
  split; [exact H1|]. apply H2. left. reflexivity.
Defined.

(** ** The length of the fight *)

Lemma loop_over g inputs r :
  Game.game_over g = true -> Game.loop g inputs r = Ok (g, []).
Proof.
  intros H. destruct inputs; cbn; rewrite H; reflexivity.
Qed.

Lemma fight_ends n : forall g r,
  reachable g -> Game.in_combat g = true ->
  (forall e, Game.enemy g = Some e -> Enemy.health e <= Z.of_nat n) ->
  exists g' out,
    Game.loop g (repeat attack_line n) r = Ok (g', out)
    /\ Game.game_over g' = true /\ Game.in_combat g' = false.
Proof.
  induction n as [|n IH]; intros g r Hr Hc Hn.
  - exfalso. pose proof (reachable_Inv g Hr) as (_ & _ & _ & Hph).
    unfold phase_ok in Hph. rewrite Hc in Hph.
    destruct (Game.enemy g) as [e|]; [|contradiction].
    specialize (Hn e eq_refl). cbn in Hn. intuition lia.
  - pose proof (reachable_Inv g Hr) as Hi.
    pose proof Hi as (_ & _ & _ & Hph).
    unfold phase_ok in Hph. rewrite Hc in Hph.
    destruct (Game.enemy g) as [e|] eqn:He; [|contradiction].
    destruct Hph as (_ & Hgo & _).
    destruct (Inv_process_command g (Str.strip "attack") r Hi Hgo)
      as (g1 & r1 & out1 & Hs & _).
    cbn [repeat Game.loop attack_line]. rewrite Hgo, Hs. cbn [bind].
    pose proof (reach_command g _ r g1 r1 out1 Hr Hgo Hs) as Hr1.
    destruct (combat_step g _ r g1 r1 out1 Hr Hc Hs)
      as [(_ & Hna)|(_ & e0 & pd & He0 & Hpd & He1 & _ & Hcase)];
      [elim Hna; reflexivity|].
    rewrite He in He0. inversion He0; subst e0.
    destruct Hcase as [(_ & _ & Hc1 & Hg1 & _)|(Hpos & ed & _ & _ & _ & Hcase)].
    + rewrite (loop_over g1 _ r1 Hg1). cbn [bind]. eauto.
    + destruct Hcase as [(_ & Hc1 & Hg1)|(_ & Hc1 & Hg1)].
      * rewrite (loop_over g1 _ r1 Hg1). cbn [bind]. eauto.
      * destruct (IH g1 r1 Hr1 Hc1) as (g2 & out2 & Hl & Hg2 & Hc2).
        { intros e' He'. rewrite He1 in He'. inversion He'; subst e'.
          rewrite enemy_take_damage_health.
          specialize (Hn e eq_refl). lia. }
        rewrite Hl. cbn [bind]. eauto.
Qed.

(** X11. In the main loop a fight is over after at most ten attacks:
    from any state in combat, ten "attack" lines end the game, whatever
    the rolls. *)
Theorem fight_over_in_ten (g : Game.t) (r : Rng) :
  reachable g ->
  Game.in_combat g = true ->
  exists g' out,
    Game.loop g (repeat attack_line 10) r = Ok (g', out)
    /\ Game.game_over g' = true /\ Game.in_combat g' = false.
Proof.
  intros Hr Hc. apply fight_ends; [assumption..|].
  intros e He. pose proof (reachable_Inv g Hr) as (_ & _ & _ & Hph).
  unfold phase_ok in Hph. rewrite Hc, He in Hph.
  destruct Hph as (_ & _ & _ & _ & _ & Hok & _). unfold enemy_ok in Hok.
  cbn. lia.
Qed.

(** X11 from the start of the fight with the lowest rolls. *)
Lemma fight_over_in_ten_witness :
  exists g' out,
    Game.loop (after to_arena zeros) (repeat attack_line 10) zeros
    = Ok (g', out)
    /\ Game.game_over g' = true.
Proof.
  destruct (fight_over_in_ten (after to_arena zeros) zeros
              (after_reachable to_arena zeros) eq_refl)
    as (g' & out & Hl & Hg & _).
  exists g', out. split; assumption.
Defined.

(** ** The run as a whole *)

Lemma loop_ends inputs : forall g r,
  Inv g ->
  exists g' out,
    Game.loop g inputs r = Ok (g', out)
    /\ (Game.game_over g' = true
        \/ exists o, out = (o ++ [MsgEnded])%list
                     \/ out = (o ++ [MsgInterrupted])%list).
Proof.
  induction inputs as [|i rest IH]; intros g r Hi; cbn.
  - destruct (Game.game_over g) eqn:Hg; do 2 eexists;
      (split; [reflexivity|]); [left; exact Hg|].
    right. exists []. left. reflexivity.
  - destruct (Game.game_over g) eqn:Hg;
      [do 2 eexists; split; [reflexivity|left; exact Hg]|].
    destruct i as [s|];
      [|do 2 eexists; split; [reflexivity|];
        right; exists []; right; reflexivity].
    destruct (Inv_process_command g (Str.strip s) r Hi Hg)
      as (g1 & r1 & out1 & -> & Hi1). cbn [bind].
    destruct (IH g1 r1 Hi1) as (g2 & out2 & -> & Hend). cbn [bind].
    do 2 eexists. split; [reflexivity|].
    destruct Hend as [Hover|(o & [->| ->])]; [left; exact Hover| |];
      right; exists (out1 ++ o)%list; rewrite app_assoc; auto.
Qed.

(** X12. The game never stops on an exception: for every input and every
    sequence of rolls [main] returns; the output starts with the banner
    and the description of the start room; and the run stops because the
    game is over, or with the end-of-input or the interrupt message as its
    last output. *)
Theorem game_never_crashes (inputs : list Game.Input) (r : Rng) :
  exists g out,
    Game.main inputs r = Ok (g, out)
    /\ reachable g
    /\ (exists rest,
          out = MsgIntro
                :: MsgRoom (Room.get_full_description
                              (Rooms.get Game.setup_rooms room1))
                :: rest)
    /\ (Game.game_over g = true
        \/ exists o, out = (o ++ [MsgEnded])%list
                     \/ out = (o ++ [MsgInterrupted])%list).
Proof.
  unfold Game.main, Game.run.
  destruct (loop_ends inputs Game.init r Inv_init) as (g & out & Hl & Hend).
  rewrite Hl. cbn [bind]. do 2 eexists. split; [reflexivity|].
  split; [eapply loop_reachable; [exact reach_init|exact Hl]|].
  split; [exists out; reflexivity|].
  destruct Hend as [Hover|(o & [->| ->])]; [left; exact Hover| |];
    right; exists (Game.show_intro Game.init ++ o)%list;
    rewrite <- app_assoc; auto.
Qed.

Lemma quit_dispatch g command r :
  In (normal command) quit_forms -> Game.in_combat g = false ->
  Game.process_command g command r
  = Ok (Game.set_game_over g true, r, [MsgGoodbye]).
Proof.
  intros Hin Hc. unfold Game.process_command. fold (normal command).
  rewrite Hc. destruct Hin as [<-|[<-|[<-|[]]]]; reflexivity.
Qed.

(** X13. Outside combat "quit", "exit" and "q" end the run at once: the
    loop sets [game_over], changes nothing else, prints the goodbye, and
    reads none of the lines that follow. *)
Theorem quit_ends_run (g : Game.t) (command : string)
    (rest : list Game.Input) (r : Rng) :
  In (normal command) quit_forms ->
  Game.in_combat g = false ->
  Game.game_over g = false ->
  Game.loop g (Game.Line command :: rest) r
  = Ok (Game.set_game_over g true, [MsgGoodbye]).
Proof.
  intros Hin Hc Hg. cbn [Game.loop]. rewrite Hg.
  rewrite quit_dispatch by (rewrite ?normal_strip; assumption).
  cbn [bind]. rewrite loop_over by reflexivity. reflexivity.
Qed.

(** X13 at the start of the game, with more lines to come. *)
Lemma quit_ends_run_witness :
  Game.loop Game.init
    [Game.Line " Exit"; Game.Line "take key"; Game.Interrupt] zeros
  = Ok (Game.set_game_over Game.init true, [MsgGoodbye]).
Proof.
  apply (quit_ends_run Game.init " Exit"); [|reflexivity..].
  right. left. reflexivity.
Defined.

Lemma move_north_plain g dest :
  Room.north (Game.here g) = Some dest ->
  Room.north_door_locked (Game.here g) = false ->
  Room.name (Rooms.get (Game.rooms g) dest) <> "Enemy Arena" ->
  Game.move g "north"
  = (Game.set_current_room g dest,
     [MsgRoom (Room.get_full_description (Rooms.get (Game.rooms g) dest))]).
Proof.
  intros Hnorth Hlock Hname. unfold Game.move.
  change (String.eqb (Str.lower "north") "north") with true. cbv iota.
  rewrite Hnorth, Hlock. apply String.eqb_neq in Hname.
  unfold Game.here, Game.set_current_room.
  cbn [Game.current_room Game.rooms]. rewrite Hname. reflexivity.
Qed.

Lemma move_south g dest :
  Room.south (Game.here g) = Some dest ->
  Game.move g "south"
  = (Game.set_current_room g dest,
     [MsgRoom (Room.get_full_description (Rooms.get (Game.rooms g) dest))]).
Proof.
  intros Hsouth. unfold Game.move.
  change (String.eqb (Str.lower "south") "north") with false.
  change (String.eqb (Str.lower "south") "south") with true. cbv iota.
  rewrite Hsouth. reflexivity.
Qed.

(** X14. Walking north and back south, outside combat, through an
    unlocked door into a room other than the arena whose south exit leads
    back, restores the state exactly. *)
Theorem there_and_back (g : Game.t) (north_line south_line : string)
    (r : Rng) (dest : RoomRef) :
  go_direction north_line = Some "north" ->
  go_direction south_line = Some "south" ->
  Game.in_combat g = false ->
  Room.north (Game.here g) = Some dest ->
  Room.north_door_locked (Game.here g) = false ->
  Room.name (Rooms.get (Game.rooms g) dest) <> "Enemy Arena" ->
  Room.south (Rooms.get (Game.rooms g) dest) = Some (Game.current_room g) ->
  exists g1,
    Game.process_command g north_line r
    = Ok (g1, r, [MsgRoom (Room.get_full_description
                             (Rooms.get (Game.rooms g) dest))])
    /\ Game.current_room g1 = dest
    /\ Game.process_command g1 south_line r
       = Ok (g, r, [MsgRoom (Room.get_full_description (Game.here g))]).
Proof.
  intros Hn Hs Hc Hnorth Hlock Hname Hsouth.
  rewrite (go_dispatch g north_line r _ Hn), Hc.
  rewrite (move_north_plain g dest Hnorth Hlock Hname).
  unfold Game.pure at 1. cbn [fst snd].
  eexists. split; [reflexivity|]. split; [reflexivity|].
  rewrite (go_dispatch _ south_line r _ Hs).
  cbn [Game.in_combat Game.set_current_room]. rewrite Hc.
  rewrite (move_south _ (Game.current_room g)) by exact Hsouth.
  unfold Game.pure, Game.here. destruct g; reflexivity.
Qed.

(** X14 between the start room and the treasury. *)
Lemma there_and_back_witness :
  exists g1,
    Game.process_command (after ["take key"; "unlock door with shadow"] zeros)
      "go north" zeros
    = Ok (g1, zeros,
          [MsgRoom (Room.get_full_description
                      (Rooms.get Game.setup_rooms room2))])
    /\ Game.current_room g1 = room2
    /\ Game.process_command g1 "go south" zeros
       = Ok (after ["take key"; "unlock door with shadow"] zeros, zeros,
             [MsgRoom (Room.get_full_description
                         (Game.here
                            (after ["take key"; "unlock door with shadow"]
                               zeros)))]).
Proof.
  apply (there_and_back
           (after ["take key"; "unlock door with shadow"] zeros)
           "go north" "go south" zeros room2);
    try reflexivity.
  cbn. discriminate.
Defined.

(** ** Items in rooms and in the inventory *)

Lemma find_app_none {A} (f : A -> bool) l x :
  find f l = None -> find f (l ++ [x]) = if f x then Some x else None.
Proof.
  induction l as [|y l IH]; cbn; [reflexivity|].
  destruct (f y); [discriminate|exact IH].
Qed.

Lemma find_app_some {A} (f : A -> bool) l x y :
  find f l = Some y -> find f (l ++ [x]) = Some y.
Proof.
  induction l as [|z l IH]; cbn; [discriminate|].
  destruct (f z); [auto|exact IH].
Qed.

Lemma named_of_eqb n x y :
  Item.eqb x y = true -> Item.named n x = Item.named n y.
Proof.
  intros H. apply item_eqb_eq in H. now subst.
Qed.

Lemma list_remove_last l x :
  (forall y, In y l -> Item.eqb y x = false) ->
  Room.list_remove x (l ++ [x]) = l.
Proof.
  induction l as [|y l IH]; cbn; intros H.
  - now rewrite item_eqb_refl.
  - rewrite (H y (or_introl eq_refl)). f_equal. apply IH.
    intros z Hz. apply H. now right.
Qed.

(** X15. [Room.remove_item] returns what [Room.get_item] finds.  When
    there is no item of that name the room is unchanged; otherwise
    exactly one item leaves the list, the first of that name, and the
    other items keep their order. *)
Theorem remove_item_first (room : Room.t) (n : string) :
  snd (Room.remove_item room n) = Room.get_item room n
  /\ (Room.get_item room n = None -> fst (Room.remove_item room n) = room)
  /\ (forall it,
        Room.get_item room n = Some it ->
        Item.named n it = true
        /\ exists l1 l2,
             Room.items room = (l1 ++ it :: l2)%list
             /\ (forall y, In y l1 -> Item.named n y = false)
             /\ fst (Room.remove_item room n)
                = Room.set_items room (l1 ++ l2)%list).
Proof.
  unfold Room.remove_item, Room.get_item.
  destruct (find (Item.named n) (Room.items room)) as [it|] eqn:Hf;
    cbn [fst snd].
  - split; [reflexivity|]. split; [discriminate|].
    intros it' E; inversion E; subst it'.
    split; [apply (find_some _ _ Hf)|].
    destruct (list_remove_found _ _ _ Hf) as (l1 & l2 & Hl & Hrem & Hno).
    exists l1, l2. rewrite Hrem. auto.
  - split; [reflexivity|]. split; [reflexivity|discriminate].
Qed.

(** X15 on the key in the start room. *)
Lemma remove_item_first_witness :
  Room.items (fst (Room.remove_item (Rooms.get Game.setup_rooms room1) "KEY"))
  = [].
Proof.
  destruct (remove_item_first (Rooms.get Game.setup_rooms room1) "KEY")
    as (_ & _ & H).
  destruct (H Game.key eq_refl) as (_ & l1 & l2 & Hl & _ & ->).
  destruct l1 as [|x [|y l1]]; cbn in Hl; inversion Hl; reflexivity.
Defined.

(** X16. Putting an item into a room that has none of its name and
    taking it out again gives back the room as it was, and the item. *)
Theorem add_then_remove (room : Room.t) (it : Item.t) (n : string) :
  Item.named n it = true ->
  Room.get_item room n = None ->
  Room.get_item (Room.add_item room it) n = Some it
  /\ Room.remove_item (Room.add_item room it) n = (room, Some it).
Proof.
  unfold Room.get_item, Room.remove_item, Room.add_item. cbn.
  intros Hn Hnone. rewrite (find_app_none _ _ it Hnone), Hn.
  split; [reflexivity|]. rewrite list_remove_last.
  - destruct room; reflexivity.
  - intros y Hy. destruct (Item.eqb y it) eqn:E; [|reflexivity].
    pose proof (find_none _ _ Hnone y Hy) as Hy'.
    rewrite (named_of_eqb n y it E) in Hy'. congruence.
Qed.

(** X16 on a sword dropped in the arena. *)
Lemma add_then_remove_witness :
  Room.remove_item
    (Room.add_item (Rooms.get Game.setup_rooms room3)
       (Item.init "Sword" "A blade" true)) "sword"
  = (Rooms.get Game.setup_rooms room3, Some (Item.init "Sword" "A blade" true)).
Proof.
  apply (add_then_remove (Rooms.get Game.setup_rooms room3)
           (Item.init "Sword" "A blade" true) "sword"); reflexivity.
Defined.

Lemma named_lower n n' it :
  Str.lower n = Str.lower n' -> Item.named n it = Item.named n' it.
Proof.
  unfold Item.named. now intros ->.
Qed.



(** X18. The inventory: [has_item] holds exactly when [get_item] finds an
    item; an added item goes to the end, is found under its name unless an
    earlier item has that name, and hides no item that was there. *)
Theorem inventory_lookup (p : Player.t) (it : Item.t) (n : string) :
  (Player.has_item p n = true <-> exists x, Player.get_item p n = Some x)
  /\ Player.inventory (Player.add_item p it)
     = (Player.inventory p ++ [it])%list
  /\ Player.has_item (Player.add_item p it) n
     = Player.has_item p n || Item.named n it
  /\ Player.get_item (Player.add_item p it) n
     = match Player.get_item p n with
       | Some x => Some x
       | None => if Item.named n it then Some it else None
       end
  /\ Player.health (Player.add_item p it) = Player.health p.
Proof.
  unfold Player.has_item, Player.get_item, Player.add_item. cbn.
  split; [|split; [reflexivity|split; [|split; [|reflexivity]]]].
  - split.
    + intros H. apply existsb_exists in H as (x & Hin & Hx).
      destruct (find (Item.named n) (Player.inventory p)) as [y|] eqn:Hf;
        [eauto|]. pose proof (find_none _ _ Hf x Hin). congruence.
    + intros (x & Hf). apply find_some in Hf.
      apply existsb_exists. eauto.
  - rewrite existsb_app. cbn. now rewrite orb_false_r.
  - destruct (find (Item.named n) (Player.inventory p)) as [y|] eqn:Hf.
    + apply (find_app_some _ _ it _ Hf).
    + apply (find_app_none _ _ it Hf).
Qed.

(** ** Attack rolls *)

(** X19. An attack roll lies within the attacker's damage range, for the
    player and for the enemy alike, and every value of the range can be
    rolled; with an empty range the roll raises [ValueError]. *)
Theorem attack_rolls (p : Player.t) (e : Enemy.t) (r : Rng) :
  (Player.min_damage p <= Player.max_damage p ->
   exists v r', Player.attack p r = Ok (v, r')
                /\ Player.min_damage p <= v <= Player.max_damage p)
  /\ (Enemy.min_damage e <= Enemy.max_damage e ->
      exists v r', Enemy.attack e r = Ok (v, r')
                   /\ Enemy.min_damage e <= v <= Enemy.max_damage e)
  /\ (forall v, Player.min_damage p <= v <= Player.max_damage p ->
                exists r0 r', Player.attack p r0 = Ok (v, r'))
  /\ (forall v, Enemy.min_damage e <= v <= Enemy.max_damage e ->
                exists r0 r', Enemy.attack e r0 = Ok (v, r'))
  /\ (Player.max_damage p < Player.min_damage p ->
      Player.attack p r = Raise ValueError)
  /\ (Enemy.max_damage e < Enemy.min_damage e ->
      Enemy.attack e r = Raise ValueError).
Proof.
  unfold Player.attack, Enemy.attack.
  split; [|split; [|split; [|split; [|split]]]].
  - intros H. destruct (randint_range _ _ r H) as (v & Hv & Hr). eauto.
  - intros H. destruct (randint_range _ _ r H) as (v & Hv & Hr). eauto.
  - intros v Hv. exists (fun _ => v - Player.min_damage p). eexists.
    apply randint_onto; [exact Hv|reflexivity].
  - intros v Hv. exists (fun _ => v - Enemy.min_damage e). eexists.
    apply randint_onto; [exact Hv|reflexivity].
  - apply randint_empty.
  - apply randint_empty.
Qed.

(** X19 on the fresh player with a raw draw of 5. *)
Lemma attack_rolls_witness :
  exists v r', Player.attack Player.init fives = Ok (v, r') /\ 1 <= v <= 6.
Proof.
  destruct (attack_rolls Player.init (Enemy.init "Dark Warrior" 10 1 4) fives)
    as (H & _).
  apply H. cbn. lia.
Defined.
